(** * comLedger: highlight matching, export and settings persistence

    A shallow embedding of the string-processing core of the comLedger
    transcription UI:

    - [app/utils/highlightUtils.tsx]: [applyHighlights] and
      [applyHighlightsToHTML];
    - [app/utils/exportUtils.ts]: [exportAsCSV] and [exportAsPDF];
    - [app/hooks/useSettings.ts]: the settings hook and its local storage;
    - [app/page.tsx]: the handlers that maintain the confirmed transcripts.

    JavaScript strings are sequences of UTF-16 code units; a code unit is
    a number of type [N]. *)

From Stdlib Require Import NArith String Ascii DecimalString Lia.
From stdpp Require Import base option list gmap strings.

Local Open Scope N_scope.

(** ** JavaScript strings *)

Module JS.

Abbreviation JSString := (list N).

(** An ASCII literal as a JavaScript string. *)
Definition js (s : string) : JSString :=
  N_of_ascii <$> list_ascii_of_string s.

(** The double quote, U+0022. *)
Definition dq : JSString := [34].

(** [a === b] on strings. *)
Definition strictEq (a b : JSString) : bool := bool_decide (a = b).

(** A string is truthy when it is not empty. *)
Definition truthy (s : JSString) : bool :=
  match s with [] => false | _ :: _ => true end.

(** The character class [\s] of ECMAScript regular expressions: WhiteSpace
    and LineTerminator code points. *)
Definition isWhiteSpace (c : N) : bool :=
  (9 <=? c) && (c <=? 13)
  || (c =? 32) || (c =? 160) || (c =? 0x1680)
  || (0x2000 <=? c) && (c <=? 0x200A)
  || (c =? 0x2028) || (c =? 0x2029) || (c =? 0x202F)
  || (c =? 0x205F) || (c =? 0x3000) || (c =? 0xFEFF).

(** [String.prototype.startsWith] and [String.prototype.includes]. *)
Fixpoint startsWith (s p : JSString) {struct p} : bool :=
  match p, s with
  | [], _ => true
  | _ :: _, [] => false
  | x :: p', y :: s' => (x =? y) && startsWith s' p'
  end.

Fixpoint includes (s sub : JSString) : bool :=
  startsWith s sub
  || match s with
     | [] => false
     | _ :: s' => includes s' sub
     end.

(** [Array.prototype.join]. *)
Fixpoint join (sep : JSString) (l : list JSString) : JSString :=
  match l with
  | [] => []
  | [x] => x
  | x :: rest => x ++ sep ++ join sep rest
  end.

(** The longest prefix of [s] whose code units satisfy [p], and the rest:
    what a greedy [c+] consumes at the start of [s]. *)
Fixpoint greedy (p : N -> bool) (s : JSString) : JSString * JSString :=
  match s with
  | [] => ([], [])
  | c :: s' =>
      if p c then let '(run, rest) := greedy p s' in (c :: run, rest)
      else ([], s)
  end.

(** [/^\s+$/.test(token)]. *)
Definition isWhitespaceToken (token : JSString) : bool :=
  truthy token && forallb isWhiteSpace token.

(** [text.match(/(\S+|\s+)/g) || []]: starting at the first code unit, the
    matcher takes the first alternative that applies, consumes greedily and
    resumes where the match ended.  Every code unit is in [\S] or in [\s],
    so no position is skipped.  The first argument bounds the number of
    matches; [matchTokens] gives it the length of the text. *)
Fixpoint matchFrom (n : nat) (s : JSString) : list JSString :=
  match n, s with
  | O, _ => []
  | _, [] => []
  | S n', c :: s' =>
      let '(run, rest) :=
        if negb (isWhiteSpace c) then greedy (λ d, negb (isWhiteSpace d)) s'
        else greedy isWhiteSpace s' in
      (c :: run) :: matchFrom n' rest
  end.

Definition matchTokens (text : JSString) : list JSString :=
  matchFrom (length text) text.

(** [String.prototype.trim]. *)
Fixpoint trimStart (s : JSString) : JSString :=
  match s with
  | c :: s' => if isWhiteSpace c then trimStart s' else s
  | [] => []
  end.

Definition trim (s : JSString) : JSString :=
  rev (trimStart (rev (trimStart s))).

End JS.
Import JS.

(** ** Highlight rules and the colour palette ([highlightUtils.tsx]) *)

(** [HighlightRule] of [useSettings.ts]. *)
Record HighlightRule := mkRule {
  id : JSString;
  word : JSString;
  color : JSString
}.

Record ColorConfig := mkColor {
  name : JSString;
  value : JSString;
  textColor : JSString
}.

(** [HIGHLIGHT_COLORS]; the Finnish names play no part in rendering. *)
Definition HIGHLIGHT_COLORS : list ColorConfig :=
  [ mkColor (js "Yellow") (js "#FFEB3B") (js "#000000");
    mkColor (js "Green") (js "#4CAF50") (js "#FFFFFF");
    mkColor (js "Blue") (js "#2196F3") (js "#FFFFFF");
    mkColor (js "Red") (js "#F44336") (js "#FFFFFF");
    mkColor (js "Purple") (js "#9C27B0") (js "#FFFFFF");
    mkColor (js "Orange") (js "#FF9800") (js "#FFFFFF");
    mkColor (js "Pink") (js "#E91E63") (js "#FFFFFF");
    mkColor (js "Cyan") (js "#00BCD4") (js "#FFFFFF");
    mkColor (js "Lime") (js "#CDDC39") (js "#000000");
    mkColor (js "Teal") (js "#009688") (js "#FFFFFF") ].

(** [colorConfig?.textColor || '#000000'], where [colorConfig] is
    [HIGHLIGHT_COLORS.find(c => c.value === rule.color)]. *)
Definition textColorOf (ruleColor : JSString) : JSString :=
  match List.find (λ c, strictEq (value c) ruleColor) HIGHLIGHT_COLORS with
  | Some c => if truthy (textColor c) then textColor c else js "#000000"
  | None => js "#000000"
  end.

(** What [applyHighlights] returns: plain strings and highlight spans.  A
    span keeps the parts of the JSX element that vary: its key (the number
    after [highlight-]), the two colours, the token, and the title of the
    indicator child when there is one. *)
Inductive ReactNode :=
  | RText (s : JSString)
  | RSpan (key : nat) (backgroundColor fg : JSString) (token : JSString)
          (indicator : option JSString).

(** The ring above, U+02DA, that flags a partial match. *)
Definition ring : JSString := [0x2DA].

(** The indicator markup of [applyHighlightsToHTML]. *)
Definition partialIndicatorHTML : JSString :=
  js "<span style=" ++ dq
  ++ js "position: absolute; top: -7px; right: -5px; "
  ++ js "font-size: 2em; line-height: 1; opacity: 0.7;"
  ++ dq ++ js ">" ++ ring ++ js "</span>".

(** The opening tag of a highlight span in [applyHighlightsToHTML]. *)
Definition spanOpenHTML (bg fg : JSString) : JSString :=
  js "<span style=" ++ dq
  ++ js "background-color: " ++ bg ++ js "; color: " ++ fg
  ++ js "; padding: 2px 4px; border-radius: 3px; font-weight: 600; "
  ++ js "position: relative; display: inline-block;"
  ++ dq ++ js ">".

Definition spanCloseHTML : JSString := js "</span>".

Section Highlight.

(** [String.prototype.toLowerCase] is left to the JavaScript engine: the
    Unicode case conversion is neither code-unit-wise nor length
    preserving, and nothing below depends on how it is computed. *)
Variable toLowerCase : JSString -> JSString.

(** The test of one rule against one token (lines 88-101 and 202-215):
    the pair [(isMatch, isPartialMatch)] after the [if]/[else if]. *)
Definition testRule (rule : HighlightRule) (token : JSString)
    (partialMatch : bool) : bool * bool :=
  let ruleWord := toLowerCase (word rule) in
  let tokenLower := toLowerCase token in
  if strictEq tokenLower ruleWord then (true, false)
  else if partialMatch && includes tokenLower ruleWord then (true, true)
  else (false, false).

(** *** [applyHighlights] *)

(** The [for (const rule of rules)] loop of [applyHighlights]: the span
    pushed for the first rule with [isMatch], if any, before the [break]. *)
Fixpoint reactRuleLoop (rules : list HighlightRule) (token : JSString)
    (partialMatch : bool) (partialMatchTooltip : JSString) (keyIndex : nat)
    : option ReactNode :=
  match rules with
  | [] => None
  | rule :: rest =>
      let '(isMatch, isPartialMatch) := testRule rule token partialMatch in
      if isMatch then
        Some (RSpan keyIndex (color rule) (textColorOf (color rule)) token
                (if isPartialMatch then Some partialMatchTooltip else None))
      else reactRuleLoop rest token partialMatch partialMatchTooltip keyIndex
  end.

(** The body of [tokens.forEach], on the state [(parts, keyIndex)]. *)
Definition reactStep (rules : list HighlightRule) (partialMatch : bool)
    (partialMatchTooltip : JSString) (st : list ReactNode * nat)
    (token : JSString) : list ReactNode * nat :=
  let '(parts, keyIndex) := st in
  if isWhitespaceToken token then (parts ++ [RText token], keyIndex)
  else
    match
      reactRuleLoop rules token partialMatch partialMatchTooltip keyIndex
    with
    | Some span => (parts ++ [span], S keyIndex)
    | None => (parts ++ [RText token], keyIndex)
    end.

Definition applyHighlights (text : JSString) (rules : list HighlightRule)
    (partialMatch : bool) (partialMatchTooltip : JSString) : list ReactNode :=
  match rules with
  | [] => [RText text]
  | _ :: _ =>
      let tokens := matchTokens text in
      let '(parts, _) :=
        fold_left (reactStep rules partialMatch partialMatchTooltip)
                  tokens ([], O) in
      match parts with
      | [] => [RText text]
      | _ :: _ => parts
      end
  end.

(** *** [applyHighlightsToHTML] *)

(** The [for (const rule of rules)] loop inside the [map] callback: the
    string returned for the first rule with [isMatch], if any. *)
Fixpoint htmlRuleLoop (rules : list HighlightRule) (token : JSString)
    (partialMatch : bool) : option JSString :=
  match rules with
  | [] => None
  | rule :: rest =>
      let '(isMatch, isPartialMatch) := testRule rule token partialMatch in
      if isMatch then
        let partialIndicator :=
          if isPartialMatch then partialIndicatorHTML else [] in
        Some (spanOpenHTML (color rule) (textColorOf (color rule))
              ++ token ++ partialIndicator ++ spanCloseHTML)
      else htmlRuleLoop rest token partialMatch
  end.

(** The callback of [tokens.map]. *)
Definition htmlOfToken (rules : list HighlightRule) (partialMatch : bool)
    (token : JSString) : JSString :=
  if isWhitespaceToken token then token
  else
    match htmlRuleLoop rules token partialMatch with
    | Some html => html
    | None => token
    end.

Definition applyHighlightsToHTML (text : JSString)
    (rules : list HighlightRule) (partialMatch : bool) : JSString :=
  match rules with
  | [] => text
  | _ :: _ =>
      join [] (htmlOfToken rules partialMatch <$> matchTokens text)
  end.

End Highlight.

(** An engine-independent stand-in for [toLowerCase] on ASCII text, where
    it agrees with every engine: [A]-[Z] go to [a]-[z]. *)
Definition asciiLower (s : JSString) : JSString :=
  (λ c, if (65 <=? c) && (c <=? 90) then c + 32 else c) <$> s.

(** Colours used in the concrete runs. *)
Definition yellow : JSString := js "#FFEB3B".
Definition green : JSString := js "#4CAF50".
Definition black : JSString := js "#000000".
Definition white : JSString := js "#FFFFFF".

(** ** Export ([exportUtils.ts]) *)

Record TranscriptItem := mkItem {
  timestamp : JSString;
  text : JSString
}.

(** [String.prototype.replace] with the global pattern of one double
    quote and two double quotes as replacement. *)
Fixpoint escapeQuotes (s : JSString) : JSString :=
  match s with
  | [] => []
  | c :: s' => (if c =? 34 then dq ++ dq else [c]) ++ escapeQuotes s'
  end.

(** The rows and the content of the CSV. *)
Definition csvRows (transcripts : list TranscriptItem)
    : list (list JSString) :=
  (λ item, [timestamp item; dq ++ escapeQuotes (text item) ++ dq])
    <$> transcripts.

Definition csvContent (transcripts : list TranscriptItem) : JSString :=
  let headers := [js "Timestamp"; js "Text"] in
  let rows := csvRows transcripts in
  join [10] (join (js ",") headers :: (join (js ",") <$> rows)).

(** The file that [exportAsCSV] hands to the browser: the parts of the
    [Blob], its type and the [download] attribute of the link.  [isoNow]
    is [new Date().toISOString()]. *)
Record Download := mkDownload {
  blobContent : JSString;
  blobType : JSString;
  downloadName : JSString
}.

Definition exportAsCSV (transcripts : list TranscriptItem)
    (filename : JSString) (isoNow : JSString) : Download :=
  {| blobContent := [0xFEFF] ++ csvContent transcripts;
     blobType := js "text/csv;charset=utf-8;";
     downloadName := filename ++ js "_" ++ take 10 isoNow ++ js ".csv" |}.

(** The local time fields that [exportAsPDF] reads from [new Date()]. *)
Record LocalTime := mkLocalTime {
  getFullYear : nat;
  getMonth : nat;
  getDate : nat;
  getHours : nat;
  getMinutes : nat;
  getSeconds : nat
}.

(** [String(n)] for a natural number. *)
Definition numberToString (n : nat) : JSString :=
  js (NilZero.string_of_uint (Nat.to_uint n)).

(** [s.padStart(2, '0')]. *)
Definition padStart2 (s : JSString) : JSString :=
  replicate (2 - length s)%nat 48 ++ s.

(** The literal chunks of the template string [htmlContent], in order,
    between its interpolations; [pdfItemPart0] to [pdfItemPart2] are the
    chunks of the inner template, for one transcript. *)
Definition pdfPart0 : JSString :=
  js "
    <!DOCTYPE html>
    <html lang="
  ++ dq
  ++ js "en"
  ++ dq
  ++ js ">
    <head>
      <meta charset="
  ++ dq
  ++ js "utf-8"
  ++ dq
  ++ js ">
      <title>".

Definition pdfPart1 : JSString :=
  js "</title>
      <style>
        @page {
          margin: 2cm;
        }
        body {
          font-family: 'Segoe UI', Tahoma, Geneva, Verdana, sans-serif;
          line-height: 1.6;
          color: #333;
          max-width: 800px;
          margin: 0 auto;
          padding: 20px;
        }
        h1 {
          color: #2196F3;
          border-bottom: 3px solid #2196F3;
          padding-bottom: 10px;
          margin-bottom: 30px;
          font-size: 24px;
        }
        .meta {
          color: #666;
          font-size: 13px;
          margin-bottom: 30px;
        }
        .transcript {
          margin-bottom: 25px;
          padding: 15px;
          border-left: 4px solid #2196F3;
          background-color: #f5f5f5;
          page-break-inside: avoid;
        }
        .timestamp {
          color: #2196F3;
          font-weight: 600;
          font-size: 13px;
          margin-bottom: 8px;
        }
        .text {
          font-size: 14px;
          line-height: 1.8;
        }
        /* Print-specific styles to ensure colors show */
        @media print {
          body {
            padding: 0;
          }
          * {
            -webkit-print-color-adjust: exact !important;
            print-color-adjust: exact !important;
            color-adjust: exact !important;
          }
        }
      </style>
    </head>
    <body>
      <h1>".

Definition pdfPart2 : JSString :=
  js "</h1>
      <div class="
  ++ dq
  ++ js "meta"
  ++ dq
  ++ js ">
        <strong>".

Definition pdfPart3 : JSString :=
  js ":</strong> ".

Definition pdfPart4 : JSString :=
  js "<br>
        <strong>".

Definition pdfPart5 : JSString :=
  js ":</strong> ".

Definition pdfPart6 : JSString :=
  js "
      </div>
      ".

Definition pdfPart7 : JSString :=
  js "
    </body>
    </html>
  ".

Definition pdfItemPart0 : JSString :=
  js "
        <div class="
  ++ dq
  ++ js "transcript"
  ++ dq
  ++ js ">
          <div class="
  ++ dq
  ++ js "timestamp"
  ++ dq
  ++ js ">"
  ++ [0xF0]
  ++ [0x178]
  ++ [0x2022]
  ++ [0x2019]
  ++ js " ".

Definition pdfItemPart1 : JSString :=
  js "</div>
          <div class="
  ++ dq
  ++ js "text"
  ++ dq
  ++ js ">".

Definition pdfItemPart2 : JSString :=
  js "</div>
        </div>
      ".

(** What [exportAsPDF] does to the window it opened, in order. *)
Inductive PrintAction :=
  | DocumentWrite (html : JSString)
  | DocumentClose
  | SetOnload.

Section ExportPDF.

Variable toLowerCase : JSString -> JSString.

(** [exportAsPDF].  [printWindow] is the result of [window.open]: [None]
    for [null].  [currentDate] is the localized date string and [now] the
    clock reading used for the file name.  The result is the returned
    boolean and the actions performed on the window. *)
Definition exportAsPDF (printWindow : option unit)
    (transcripts : list TranscriptItem) (title confirmedTitle : JSString)
    (dateLabel totalLabel : JSString) (highlightRules : list HighlightRule)
    (partialMatchHighlight : bool)
    (currentDate : JSString) (now : LocalTime) : bool * list PrintAction :=
  match printWindow with
  | None => (false, [])
  | Some _ =>
      let year := numberToString (getFullYear now) in
      let month := padStart2 (numberToString (getMonth now + 1)) in
      let day := padStart2 (numberToString (getDate now)) in
      let hours := padStart2 (numberToString (getHours now)) in
      let minutes := padStart2 (numberToString (getMinutes now)) in
      let seconds := padStart2 (numberToString (getSeconds now)) in
      let timestamp' :=
        year ++ js "-" ++ month ++ js "-" ++ day ++ js "_"
        ++ hours ++ js "-" ++ minutes ++ js "-" ++ seconds in
      let filename := js "comLedger_" ++ timestamp' in
      let htmlContent :=
        pdfPart0 ++ filename ++ pdfPart1 ++ confirmedTitle
        ++ pdfPart2 ++ dateLabel ++ pdfPart3 ++ currentDate
        ++ pdfPart4 ++ totalLabel ++ pdfPart5
        ++ numberToString (length transcripts) ++ pdfPart6
        ++ join []
             ((λ item,
                 pdfItemPart0 ++ timestamp item ++ pdfItemPart1
                 ++ applyHighlightsToHTML toLowerCase (text item)
                      highlightRules partialMatchHighlight
                 ++ pdfItemPart2) <$> transcripts)
        ++ pdfPart7 in
      (true, [DocumentWrite htmlContent; DocumentClose; SetOnload])
  end.

End ExportPDF.

(** ** JSON text of the highlight rules

    [JSON.stringify] and [JSON.parse] at the type [HighlightRule[]]: the
    serializer follows SerializeJSONArray, SerializeJSONObject and
    QuoteJSONString; the parser reads the string grammar of JSON in full
    and the array of rule objects as the serializer lays it out.  A text
    that is not an array of rules has no value of this type and, like a
    text that is not JSON, yields [None]. *)

Module JSON.

Definition isHighSurrogate (c : N) : bool := (0xD800 <=? c) && (c <=? 0xDBFF).
Definition isLowSurrogate (c : N) : bool := (0xDC00 <=? c) && (c <=? 0xDFFF).

(** A hexadecimal digit in lower case. *)
Definition hexDigit (d : N) : N := if d <? 10 then 48 + d else 87 + d.

(** UnicodeEscape: a backslash, [u] and four hexadecimal digits. *)
Definition unicodeEscape (c : N) : JSString :=
  [92; 117; hexDigit (c / 4096 mod 16); hexDigit (c / 256 mod 16);
   hexDigit (c / 16 mod 16); hexDigit (c mod 16)].

(** One code unit inside QuoteJSONString.  [lone] tells whether the unit
    is a surrogate that is not part of a pair. *)
Definition quoteUnit (c : N) (lone : bool) : JSString :=
  if c =? 8 then [92; 98]
  else if c =? 9 then [92; 116]
  else if c =? 10 then [92; 110]
  else if c =? 12 then [92; 102]
  else if c =? 13 then [92; 114]
  else if c =? 34 then [92; 34]
  else if c =? 92 then [92; 92]
  else if (c <? 32) || lone then unicodeEscape c
  else [c].

(** The code units of a string, quoted from left to right; [prevHigh]
    tells whether the unit before was a high surrogate. *)
Fixpoint quoteFrom (prevHigh : bool) (s : JSString) : JSString :=
  match s with
  | [] => []
  | c :: s' =>
      let nextLow :=
        match s' with
        | d :: _ => isLowSurrogate d
        | [] => false
        end in
      let lone :=
        isHighSurrogate c && negb nextLow
        || isLowSurrogate c && negb prevHigh in
      quoteUnit c lone ++ quoteFrom (isHighSurrogate c) s'
  end.

Definition quote (s : JSString) : JSString := dq ++ quoteFrom false s ++ dq.

Definition member (key : string) (v : JSString) : JSString :=
  dq ++ js key ++ dq ++ js ":" ++ quote v.

Definition stringifyRule (r : HighlightRule) : JSString :=
  js "{" ++ join (js ",")
              [member "id" (id r); member "word" (word r);
               member "color" (color r)]
  ++ js "}".

Definition stringify (rules : list HighlightRule) : JSString :=
  js "[" ++ join (js ",") (stringifyRule <$> rules) ++ js "]".

(** The value of a hexadecimal digit, in either case. *)
Definition hexValue (c : N) : option N :=
  if (48 <=? c) && (c <=? 57) then Some (c - 48)
  else if (97 <=? c) && (c <=? 102) then Some (c - 87)
  else if (65 <=? c) && (c <=? 70) then Some (c - 55)
  else None.

(** The code unit of a two-character escape. *)
Definition simpleEscape (e : N) : option N :=
  if e =? 34 then Some 34
  else if e =? 92 then Some 92
  else if e =? 47 then Some 47
  else if e =? 98 then Some 8
  else if e =? 102 then Some 12
  else if e =? 110 then Some 10
  else if e =? 114 then Some 13
  else if e =? 116 then Some 9
  else None.

(** The characters of a JSON string after its opening quote: the value
    and the text that follows the closing quote. *)
Fixpoint parseStringBody (s : JSString) : option (JSString * JSString) :=
  match s with
  | [] => None
  | c :: s' =>
      if c =? 34 then Some ([], s')
      else if c =? 92 then
        match s' with
        | [] => None
        | e :: s'' =>
            if e =? 117 then
              match s'' with
              | h1 :: h2 :: h3 :: h4 :: s3 =>
                  match hexValue h1, hexValue h2, hexValue h3, hexValue h4 with
                  | Some a, Some b, Some c', Some d =>
                      '(str, rest) ← parseStringBody s3;
                      Some ((((a * 16 + b) * 16 + c') * 16 + d) :: str, rest)
                  | _, _, _, _ => None
                  end
              | _ => None
              end
            else
              u ← simpleEscape e;
              '(str, rest) ← parseStringBody s'';
              Some (u :: str, rest)
        end
      else if c <? 32 then None
      else '(str, rest) ← parseStringBody s'; Some (c :: str, rest)
  end.

(** Consume the literal [lit] at the start of [s]. *)
Definition expect (lit s : JSString) : option JSString :=
  if startsWith s lit then Some (drop (length lit) s) else None.

Definition parseString (s : JSString) : option (JSString * JSString) :=
  s ← expect dq s; parseStringBody s.

Definition parseMember (key : string) (s : JSString)
    : option (JSString * JSString) :=
  s ← expect (dq ++ js key ++ dq ++ js ":") s; parseString s.

Definition parseRule (s : JSString) : option (HighlightRule * JSString) :=
  s ← expect (js "{") s;
  '(i, s) ← parseMember "id" s;
  s ← expect (js ",") s;
  '(w, s) ← parseMember "word" s;
  s ← expect (js ",") s;
  '(c, s) ← parseMember "color" s;
  s ← expect (js "}") s;
  Some (mkRule i w c, s).

(** The elements of a non-empty array up to the end of the text; the
    first argument bounds the number of elements. *)
Fixpoint parseElements (n : nat) (s : JSString) : option (list HighlightRule) :=
  match n with
  | O => None
  | S n' =>
      '(r, s) ← parseRule s;
      if strictEq s (js "]") then Some [r]
      else s ← expect (js ",") s; rs ← parseElements n' s; Some (r :: rs)
  end.

Definition parse (s : JSString) : option (list HighlightRule) :=
  s ← expect (js "[") s;
  if strictEq s (js "]") then Some [] else parseElements (length s) s.

End JSON.

(** ** The settings hook ([useSettings.ts]) *)

Inductive Language := en | fi.

(** The string of a [Language]. *)
Definition languageCode (l : Language) : JSString :=
  match l with
  | en => js "en"
  | fi => js "fi"
  end.

Record Settings := mkSettings {
  language : Language;
  apiKey : JSString;
  echoCancellation : bool;
  noiseSuppression : bool;
  selectedMicrophoneId : JSString;
  highlightRules : list HighlightRule;
  partialMatchHighlight : bool;
  newestFirst : bool
}.

(** The arguments of the [useState] calls. *)
Definition initialSettings : Settings :=
  mkSettings en [] true true [] [] true true.

(** The state setters. *)
Definition setLanguage (v : Language) (s : Settings) : Settings :=
  mkSettings v (apiKey s) (echoCancellation s) (noiseSuppression s)
    (selectedMicrophoneId s) (highlightRules s) (partialMatchHighlight s)
    (newestFirst s).
Definition setApiKey (v : JSString) (s : Settings) : Settings :=
  mkSettings (language s) v (echoCancellation s) (noiseSuppression s)
    (selectedMicrophoneId s) (highlightRules s) (partialMatchHighlight s)
    (newestFirst s).
Definition setEchoCancellation (v : bool) (s : Settings) : Settings :=
  mkSettings (language s) (apiKey s) v (noiseSuppression s)
    (selectedMicrophoneId s) (highlightRules s) (partialMatchHighlight s)
    (newestFirst s).
Definition setNoiseSuppression (v : bool) (s : Settings) : Settings :=
  mkSettings (language s) (apiKey s) (echoCancellation s) v
    (selectedMicrophoneId s) (highlightRules s) (partialMatchHighlight s)
    (newestFirst s).
Definition setSelectedMicrophoneId (v : JSString) (s : Settings) : Settings :=
  mkSettings (language s) (apiKey s) (echoCancellation s) (noiseSuppression s)
    v (highlightRules s) (partialMatchHighlight s) (newestFirst s).
Definition setHighlightRules (v : list HighlightRule) (s : Settings)
    : Settings :=
  mkSettings (language s) (apiKey s) (echoCancellation s) (noiseSuppression s)
    (selectedMicrophoneId s) v (partialMatchHighlight s) (newestFirst s).
Definition setPartialMatchHighlight (v : bool) (s : Settings) : Settings :=
  mkSettings (language s) (apiKey s) (echoCancellation s) (noiseSuppression s)
    (selectedMicrophoneId s) (highlightRules s) v (newestFirst s).
Definition setNewestFirst (v : bool) (s : Settings) : Settings :=
  mkSettings (language s) (apiKey s) (echoCancellation s) (noiseSuppression s)
    (selectedMicrophoneId s) (highlightRules s) (partialMatchHighlight s) v.

(** [localStorage]: [getItem] is lookup, [setItem] is insert and
    [removeItem] is delete. *)
Abbreviation Storage := (gmap string JSString).

(** [String(value)] for a boolean. *)
Definition boolToString (b : bool) : JSString :=
  if b then js "true" else js "false".

(** A boolean setting is read when its key is present, as [saved === 'true']. *)
Definition loadBool (key : string) (set : bool -> Settings -> Settings)
    (ls : Storage) (s : Settings) : Settings :=
  match ls !! key with
  | Some saved => set (strictEq saved (js "true")) s
  | None => s
  end.

(** A string setting is read when its item is truthy. *)
Definition loadString (key : string) (set : JSString -> Settings -> Settings)
    (ls : Storage) (s : Settings) : Settings :=
  match ls !! key with
  | Some saved => if truthy saved then set saved s else s
  | None => s
  end.

Definition loadLanguage (ls : Storage) (s : Settings) : Settings :=
  match ls !! "language" with
  | Some savedLanguage =>
      if strictEq savedLanguage (js "en") then setLanguage en s
      else if strictEq savedLanguage (js "fi") then setLanguage fi s
      else s
  | None => s
  end.

(** The item of the highlight rules is read with [JSON.parse], and the
    state takes whatever value the text stands for.  The state of this
    model holds lists of rules, so the model follows the code on the
    items that stand for such a list, which are the items the hook
    itself writes ([WrittenByHook] below), and on the texts that are not
    JSON, where the code leaves the state as it is. *)
Definition loadHighlightRules (ls : Storage) (s : Settings) : Settings :=
  match ls !! "highlight_rules" with
  | Some savedHighlightRules =>
      if truthy savedHighlightRules then
        match JSON.parse savedHighlightRules with
        | Some rules => setHighlightRules rules s
        | None => s
        end
      else s
  | None => s
  end.

(** The effect that runs on mount, as a transformer of the state. *)
Definition loadEffect (ls : Storage) (s : Settings) : Settings :=
  let s := loadLanguage ls s in
  let s := loadString "elevenlabs_api_key" setApiKey ls s in
  let s := loadBool "echo_cancellation" setEchoCancellation ls s in
  let s := loadBool "noise_suppression" setNoiseSuppression ls s in
  let s := loadString "selected_microphone_id" setSelectedMicrophoneId ls s in
  let s := loadHighlightRules ls s in
  let s := loadBool "partial_match_highlight" setPartialMatchHighlight ls s in
  loadBool "newest_first" setNewestFirst ls s.

(** Mounting the hook: the initial state, then the effect. *)
Definition mount (ls : Storage) : Settings := loadEffect ls initialSettings.

(** The updaters, on the hook state and the storage. *)
Definition updateLanguage (lang : Language) (st : Settings * Storage)
    : Settings * Storage :=
  (setLanguage lang st.1, <["language" := languageCode lang]> st.2).

Definition updateApiKey (key : JSString) (st : Settings * Storage)
    : Settings * Storage :=
  (setApiKey key st.1,
   if truthy key then <["elevenlabs_api_key" := key]> st.2
   else delete "elevenlabs_api_key" st.2).

Definition updateEchoCancellation (value : bool) (st : Settings * Storage)
    : Settings * Storage :=
  (setEchoCancellation value st.1,
   <["echo_cancellation" := boolToString value]> st.2).

Definition updateNoiseSuppression (value : bool) (st : Settings * Storage)
    : Settings * Storage :=
  (setNoiseSuppression value st.1,
   <["noise_suppression" := boolToString value]> st.2).

Definition updateMicrophone (deviceId : JSString) (st : Settings * Storage)
    : Settings * Storage :=
  (setSelectedMicrophoneId deviceId st.1,
   <["selected_microphone_id" := deviceId]> st.2).

(** [now] is [Date.now().toString()]. *)
Definition addHighlightRule (word' color' : JSString) (now : JSString)
    (st : Settings * Storage) : Settings * Storage :=
  let newRule := mkRule now (trim word') color' in
  let updated := highlightRules st.1 ++ [newRule] in
  (setHighlightRules updated st.1,
   <["highlight_rules" := JSON.stringify updated]> st.2).

Definition removeHighlightRule (id' : JSString) (st : Settings * Storage)
    : Settings * Storage :=
  let updated :=
    List.filter (λ rule, negb (strictEq (id rule) id'))
      (highlightRules st.1) in
  (setHighlightRules updated st.1,
   <["highlight_rules" := JSON.stringify updated]> st.2).

Definition updatePartialMatchHighlight (value : bool) (st : Settings * Storage)
    : Settings * Storage :=
  (setPartialMatchHighlight value st.1,
   <["partial_match_highlight" := boolToString value]> st.2).

Definition updateNewestFirst (value : bool) (st : Settings * Storage)
    : Settings * Storage :=
  (setNewestFirst value st.1, <["newest_first" := boolToString value]> st.2).

(** The calls a component can make on the hook. *)
Inductive SettingsUpdate :=
  | UpdateLanguage (lang : Language)
  | UpdateApiKey (key : JSString)
  | UpdateEchoCancellation (value : bool)
  | UpdateNoiseSuppression (value : bool)
  | UpdateMicrophone (deviceId : JSString)
  | AddHighlightRule (word' color' now : JSString)
  | RemoveHighlightRule (id' : JSString)
  | UpdatePartialMatchHighlight (value : bool)
  | UpdateNewestFirst (value : bool).

Definition applyUpdate (st : Settings * Storage) (u : SettingsUpdate)
    : Settings * Storage :=
  match u with
  | UpdateLanguage lang => updateLanguage lang st
  | UpdateApiKey key => updateApiKey key st
  | UpdateEchoCancellation value => updateEchoCancellation value st
  | UpdateNoiseSuppression value => updateNoiseSuppression value st
  | UpdateMicrophone deviceId => updateMicrophone deviceId st
  | AddHighlightRule w c now => addHighlightRule w c now st
  | RemoveHighlightRule i => removeHighlightRule i st
  | UpdatePartialMatchHighlight value => updatePartialMatchHighlight value st
  | UpdateNewestFirst value => updateNewestFirst value st
  end.

(** ** The confirmed transcripts ([page.tsx]) *)

Record Transcript := mkTranscript {
  entryId : JSString;
  entryText : JSString;
  entryTimestamp : JSString
}.

(** [transcriptsWithTimestamps] and [lastPartialTranscriptRef.current]. *)
Record PageState := mkPage {
  transcriptsWithTimestamps : list Transcript;
  lastPartialTranscriptRef : JSString
}.

Definition initialPage : PageState := mkPage [] [].

(** The updater passed to [setTranscriptsWithTimestamps] by both
    handlers: [prev] when some entry has the text, else [prev] with the
    new entry at the end. *)
Definition appendUnlessSaved (entry : Transcript) (prev : list Transcript)
    : list Transcript :=
  if existsb (λ t, strictEq (entryText t) (entryText entry)) prev then prev
  else prev ++ [entry].

(** The events that touch the page state.  Identifiers and timestamps
    come from the clock and the random generator at the time of the
    event; [ClearTranscripts] carries the answer to [window.confirm]. *)
Inductive PageEvent :=
  | Disconnect (newId timestamp' : JSString)
  | PartialTranscript (dataText : JSString)
  | CommittedTranscript (dataText newId timestamp' : JSString)
  | ClearTranscripts (confirmed : bool).

Definition onDisconnect (newId timestamp' : JSString) (p : PageState)
    : PageState :=
  let partialText := lastPartialTranscriptRef p in
  if truthy partialText && truthy (trim partialText) then
    mkPage
      (appendUnlessSaved (mkTranscript newId partialText timestamp')
         (transcriptsWithTimestamps p))
      []
  else p.

Definition onPartialTranscript (dataText : JSString) (p : PageState)
    : PageState :=
  mkPage (transcriptsWithTimestamps p) dataText.

Definition onCommittedTranscriptWithTimestamps
    (dataText newId timestamp' : JSString) (p : PageState) : PageState :=
  mkPage
    (appendUnlessSaved (mkTranscript newId dataText timestamp')
       (transcriptsWithTimestamps p))
    [].

Definition handleClearTranscripts (confirmed : bool) (p : PageState)
    : PageState :=
  if confirmed then mkPage [] (lastPartialTranscriptRef p) else p.

Definition handle (p : PageState) (e : PageEvent) : PageState :=
  match e with
  | Disconnect i ts => onDisconnect i ts p
  | PartialTranscript t => onPartialTranscript t p
  | CommittedTranscript t i ts => onCommittedTranscriptWithTimestamps t i ts p
  | ClearTranscripts c => handleClearTranscripts c p
  end.

(** The states the page can be in: the initial one and those that an
    event leads to. *)
Inductive reachable : PageState -> Prop :=
  | reachable_init : reachable initialPage
  | reachable_step p e : reachable p -> reachable (handle p e).

(** ** The rest of [highlightUtils.tsx] *)

(** The characters of the class in the pattern of [escapeRegex]: the
    full stop, the star, the plus, the question mark, the caret, the
    dollar, the braces, the parentheses, the bar, the brackets and the
    backslash. *)
Definition regexSpecials : JSString :=
  [46; 42; 43; 63; 94; 36; 123; 125; 40; 41; 124; 91; 93; 92].

Definition isRegexSpecial (c : N) : bool := existsb (N.eqb c) regexSpecials.

(** [escapeRegex]: the global replace puts a backslash before every
    character of the class. *)
Fixpoint escapeRegex (str : JSString) : JSString :=
  match str with
  | [] => []
  | c :: str' =>
      (if isRegexSpecial c then [92; c] else [c]) ++ escapeRegex str'
  end.

(** The text a React node shows, without the indicator. *)
Definition nodeText (n : ReactNode) : JSString :=
  match n with
  | RText s => s
  | RSpan _ _ _ token _ => token
  end.

(** The keys of the highlight spans of a list of nodes, in order. *)
Fixpoint spanKeys (nodes : list ReactNode) : list nat :=
  match nodes with
  | [] => []
  | RText _ :: rest => spanKeys rest
  | RSpan key _ _ _ _ :: rest => key :: spanKeys rest
  end.



(** The item of the highlight rules is as the hook leaves it: absent, or
    the text that [JSON.stringify] gives for a list of rules.  An empty
    item is not read at all. *)
Definition WrittenByHook (ls : Storage) : Prop :=
  match ls !! "highlight_rules" with
  | None => True
  | Some item => item = [] ∨ ∃ rules, item = JSON.stringify rules
  end.

(** The storage key that an updater writes. *)
Definition storageKeyOf (u : SettingsUpdate) : string :=
  match u with
  | UpdateLanguage _ => "language"
  | UpdateApiKey _ => "elevenlabs_api_key"
  | UpdateEchoCancellation _ => "echo_cancellation"
  | UpdateNoiseSuppression _ => "noise_suppression"
  | UpdateMicrophone _ => "selected_microphone_id"
  | AddHighlightRule _ _ _ => "highlight_rules"
  | RemoveHighlightRule _ => "highlight_rules"
  | UpdatePartialMatchHighlight _ => "partial_match_highlight"
  | UpdateNewestFirst _ => "newest_first"
  end.

(** The keys that the settings hook reads. *)
Definition settingsKeys : list string :=
  [ "language"; "elevenlabs_api_key"; "echo_cancellation";
    "noise_suppression"; "selected_microphone_id"; "highlight_rules";
    "partial_match_highlight"; "newest_first" ].

(** A string has no whitespace at either end. *)
Definition Trimmed (s : JSString) : Prop :=
  (head s ≫= λ c, Some (isWhiteSpace c)) ≠ Some true
  ∧ (last s ≫= λ c, Some (isWhiteSpace c)) ≠ Some true.

(** The two decimal digits of a number below one hundred. *)
Definition twoDigits (n : nat) : JSString :=
  [48 + N.of_nat (n / 10); 48 + N.of_nat (n mod 10)].

(** ** The highlight form ([components/HighlightSettings.tsx]) *)

Module HighlightSettings.

(** The state of the component. *)
Record Form := mkForm {
  newWord : JSString;
  selectedColor : JSString;
  showColorPicker : bool
}.

(** [HIGHLIGHT_COLORS[0].value] is the colour selected at first. *)
Definition initialForm : Form :=
  mkForm []
    match HIGHLIGHT_COLORS with
    | c :: _ => value c
    | [] => []
    end
    false.

(** What the user does to the form: typing in the word input, opening or
    closing the colour picker with its button, pressing the mouse
    outside the picker, choosing the entry at an index of the palette
    list, pressing the add button (or Enter).  The entries can be
    chosen while the picker is open; the model lets them be chosen at
    any time. *)
Inductive FormEvent :=
  | TypeWord (w : JSString)
  | TogglePicker
  | ClickOutside
  | PickColor (index : nat)
  | Add.

(** [handleAdd]: the call to [onAddHighlight], if any, and the new form. *)
Definition handleAdd (f : Form) : option (JSString * JSString) * Form :=
  let word' := trim (newWord f) in
  if truthy word' then
    (Some (word', selectedColor f),
     mkForm [] (selectedColor f) (showColorPicker f))
  else (None, f).

Definition formStep (f : Form) (e : FormEvent)
    : option (JSString * JSString) * Form :=
  match e with
  | TypeWord w => (None, mkForm w (selectedColor f) (showColorPicker f))
  | TogglePicker =>
      (None, mkForm (newWord f) (selectedColor f) (negb (showColorPicker f)))
  | ClickOutside => (None, mkForm (newWord f) (selectedColor f) false)
  | PickColor index =>
      match HIGHLIGHT_COLORS !! index with
      | Some c => (None, mkForm (newWord f) (value c) false)
      | None => (None, f)
      end
  | Add => handleAdd f
  end.

(** A session on the form: the calls made to [onAddHighlight], in order,
    and the form at the end. *)
Fixpoint formRun (f : Form) (es : list FormEvent)
    : list (JSString * JSString) * Form :=
  match es with
  | [] => ([], f)
  | e :: es' =>
      let '(call, f') := formStep f e in
      let '(calls, f'') := formRun f' es' in
      (match call with
       | Some c => c :: calls
       | None => calls
       end, f'')
  end.

End HighlightSettings.

(** ** The first-time notices ([components/FirstTimeNotices.tsx]) *)

Module FirstTimeNotices.

Record Notices := mkNotices {
  showNotice0 : bool;
  showNotice1 : bool;
  showNotice2 : bool
}.

(** [!localStorage.getItem(key)]: the item is missing or empty. *)
Definition notDismissed (ls : Storage) (key : string) : bool :=
  match ls !! key with
  | Some v => negb (truthy v)
  | None => true
  end.

(** The state after the effect that runs on mount: every notice starts
    hidden and is shown when it was not dismissed. *)
Definition noticesMount (ls : Storage) : Notices :=
  mkNotices
    (if notDismissed ls "notice_apikey_dismissed" then true else false)
    (if notDismissed ls "notice_privacy_dismissed" then true else false)
    (if notDismissed ls "notice_persistence_dismissed" then true else false).

Definition dismissNotice0 (st : Notices * Storage) : Notices * Storage :=
  (mkNotices false (showNotice1 st.1) (showNotice2 st.1),
   <["notice_apikey_dismissed" := js "true"]> st.2).

Definition dismissNotice1 (st : Notices * Storage) : Notices * Storage :=
  (mkNotices (showNotice0 st.1) false (showNotice2 st.1),
   <["notice_privacy_dismissed" := js "true"]> st.2).

Definition dismissNotice2 (st : Notices * Storage) : Notices * Storage :=
  (mkNotices (showNotice0 st.1) (showNotice1 st.1) false,
   <["notice_persistence_dismissed" := js "true"]> st.2).

(** The component returns [null]. *)
Definition rendersNothing (n : Notices) : bool :=
  negb (showNotice0 n) && negb (showNotice1 n) && negb (showNotice2 n).

End FirstTimeNotices.

(** ** The translation table ([translations.ts])

    The entries that the handlers of the page read. *)

Module T.

Record Translations := mkTranslations {
  title : JSString;
  confirmedTranscripts : JSString;
  microphoneChanged : JSString;
  defaultMicrophone : JSString;
  connectionError : JSString;
  unknownError : JSString;
  pdfDate : JSString;
  pdfTotalTranscripts : JSString;
  noTranscriptsToExport : JSString;
  transcriptsExported : JSString;
  apiKeySavedSuccess : JSString;
  apiKeyRemoved : JSString;
  echoCancellationEnabled : JSString;
  echoCancellationDisabled : JSString;
  noiseSuppressionEnabled : JSString;
  noiseSuppressionDisabled : JSString;
  language : JSString;
  languageChanged : JSString;
  highlightAdded : JSString;
  highlightRemoved : JSString;
  partialMatchingEnabled : JSString;
  partialMatchingDisabled : JSString;
  transcriptOrderChanged : JSString
}.

End T.

Definition enTable : T.Translations :=
  {|
    T.title := js "comLedger";
    T.confirmedTranscripts := js "Confirmed Transcripts";
    T.microphoneChanged := js "Microphone changed";
    T.defaultMicrophone := js "Default Microphone";
    T.connectionError := js "Connection error";
    T.unknownError := js "Unknown error";
    T.pdfDate := js "Date";
    T.pdfTotalTranscripts := js "Total Transcripts";
    T.noTranscriptsToExport := js "No transcripts to export";
    T.transcriptsExported := js "Transcripts exported successfully!";
    T.apiKeySavedSuccess := js "API key saved!";
    T.apiKeyRemoved := js "API key removed. Using server key.";
    T.echoCancellationEnabled := js "Echo Cancellation enabled";
    T.echoCancellationDisabled := js "Echo Cancellation disabled";
    T.noiseSuppressionEnabled := js "Noise Suppression enabled";
    T.noiseSuppressionDisabled := js "Noise Suppression disabled";
    T.language := js "Language";
    T.languageChanged := js "Language changed";
    T.highlightAdded := js "Highlight added";
    T.highlightRemoved := js "Highlight removed";
    T.partialMatchingEnabled := js "Partial matching enabled";
    T.partialMatchingDisabled := js "Partial matching disabled";
    T.transcriptOrderChanged := js "Transcript order changed"
  |}.

Definition fiTable : T.Translations :=
  {|
    T.title := js "comLedger";
    T.confirmedTranscripts := js "Vahvistetut Transkriptiot";
    T.microphoneChanged := js "Mikrofoni vaihdettu";
    T.defaultMicrophone := js "Oletusmikrofoni";
    T.connectionError := js "Yhteysvirhe";
    T.unknownError := js "Tuntematon virhe";
    T.pdfDate := js "P" ++ [0xE4] ++ js "iv" ++ [0xE4] ++ js "m"
      ++ [0xE4; 0xE4] ++ js "r" ++ [0xE4];
    T.pdfTotalTranscripts := js "Transkriptioiden m" ++ [0xE4; 0xE4] ++ js "r"
      ++ [0xE4];
    T.noTranscriptsToExport := js "Ei transkriptioita viet" ++ [0xE4]
      ++ js "v" ++ [0xE4] ++ js "ksi";
    T.transcriptsExported := js "Transkriptiot viety onnistuneesti!";
    T.apiKeySavedSuccess := js "API-avain tallennettu!";
    T.apiKeyRemoved := js "API-avain poistettu. K" ++ [0xE4] ++ js "ytet"
      ++ [0xE4; 0xE4] ++ js "n palvelimen avainta.";
    T.echoCancellationEnabled := js "Echo Cancellation k" ++ [0xE4] ++ js "yt"
      ++ [0xF6] ++ js "ss" ++ [0xE4];
    T.echoCancellationDisabled := js "Echo Cancellation pois k" ++ [0xE4]
      ++ js "yt" ++ [0xF6] ++ js "st" ++ [0xE4];
    T.noiseSuppressionEnabled := js "Noise Suppression k" ++ [0xE4] ++ js "yt"
      ++ [0xF6] ++ js "ss" ++ [0xE4];
    T.noiseSuppressionDisabled := js "Noise Suppression pois k" ++ [0xE4]
      ++ js "yt" ++ [0xF6] ++ js "st" ++ [0xE4];
    T.language := js "Kieli";
    T.languageChanged := js "Kieli vaihdettu";
    T.highlightAdded := js "Korostus lis" ++ [0xE4] ++ js "tty";
    T.highlightRemoved := js "Korostus poistettu";
    T.partialMatchingEnabled := js "Osaosumien korostus p" ++ [0xE4; 0xE4]
      ++ js "ll" ++ [0xE4];
    T.partialMatchingDisabled := js "Osaosumien korostus pois";
    T.transcriptOrderChanged := js "Transkriptioiden j" ++ [0xE4]
      ++ js "rjestys vaihdettu"
  |}.

Definition translations (lang : Language) : T.Translations :=
  match lang with
  | en => enTable
  | fi => fiTable
  end.

(** ** The page ([page.tsx]) *)

Module App.

Inductive NotificationType := error | success | info.

Record Notification := mkNotification {
  message : JSString;
  type : NotificationType
}.

(** The state of the page component, with the state of the settings hook
    and the local storage. *)
Record AppState := mkApp {
  page : PageState;
  settings : Settings * Storage;
  notification : option Notification;
  showSettings : bool;
  showApiKeyModal : bool;
  tempApiKey : JSString
}.

(** The page at its first render: the arguments of the [useState] calls
    and the settings hook mounted on the storage.  The effect that runs
    after it is [httpsCheck] below. *)
Definition initialApp (ls : Storage) : AppState :=
  mkApp initialPage (mount ls, ls) None false false [].

(** [translations[settings.language]]. *)
Definition t (a : AppState) : T.Translations :=
  translations (language (settings a).1).

Definition withPage (p : PageState) (a : AppState) : AppState :=
  mkApp p (settings a) (notification a) (showSettings a) (showApiKeyModal a)
    (tempApiKey a).

Definition withSettings (s : Settings * Storage) (a : AppState) : AppState :=
  mkApp (page a) s (notification a) (showSettings a) (showApiKeyModal a)
    (tempApiKey a).

Definition setNotification (n : option Notification) (a : AppState)
    : AppState :=
  mkApp (page a) (settings a) n (showSettings a) (showApiKeyModal a)
    (tempApiKey a).

Definition setShowSettings (b : bool) (a : AppState) : AppState :=
  mkApp (page a) (settings a) (notification a) b (showApiKeyModal a)
    (tempApiKey a).

Definition setShowApiKeyModal (b : bool) (a : AppState) : AppState :=
  mkApp (page a) (settings a) (notification a) (showSettings a) b
    (tempApiKey a).

Definition setTempApiKey (k : JSString) (a : AppState) : AppState :=
  mkApp (page a) (settings a) (notification a) (showSettings a)
    (showApiKeyModal a) k.

Definition notify (m : JSString) (ty : NotificationType) (a : AppState)
    : AppState :=
  setNotification (Some (mkNotification m ty)) a.

(** The effect that checks for HTTPS on mount; [protocol] and [hostname]
    are those of [window.location]. *)
Definition httpsCheck (protocol hostname : JSString) (a : AppState)
    : AppState :=
  if negb (strictEq protocol (js "https:"))
     && negb (strictEq hostname (js "localhost"))
  then
    notify
      ([0x26A0; 0xFE0F]
       ++ js " HTTPS required for microphone access. "
       ++ js "Please use HTTPS connection.")
      error a
  else a.

(** The page once it is mounted. *)
Definition mounted (protocol hostname : JSString) (ls : Storage) : AppState :=
  httpsCheck protocol hostname (initialApp ls).

(** [handleSaveApiKey]. *)
Definition handleSaveApiKey (a : AppState) : AppState :=
  if truthy (trim (tempApiKey a)) then
    let message' := [0x2705] ++ js " " ++ T.apiKeySavedSuccess (t a) in
    notify message' success
      (setShowApiKeyModal false
         (withSettings (updateApiKey (trim (tempApiKey a)) (settings a)) a))
  else a.

(** [handleClearApiKey]. *)
Definition handleClearApiKey (a : AppState) : AppState :=
  notify (T.apiKeyRemoved (t a)) info
    (setTempApiKey [] (withSettings (updateApiKey [] (settings a)) a)).

(** [handleToggleEchoCancellation]. *)
Definition handleToggleEchoCancellation (a : AppState) : AppState :=
  let newValue := negb (echoCancellation (settings a).1) in
  notify
    (if newValue then T.echoCancellationEnabled (t a)
     else T.echoCancellationDisabled (t a))
    info
    (withSettings (updateEchoCancellation newValue (settings a)) a).

(** [handleToggleNoiseSuppression]. *)
Definition handleToggleNoiseSuppression (a : AppState) : AppState :=
  let newValue := negb (noiseSuppression (settings a).1) in
  notify
    (if newValue then T.noiseSuppressionEnabled (t a)
     else T.noiseSuppressionDisabled (t a))
    info
    (withSettings (updateNoiseSuppression newValue (settings a)) a).

(** An entry of [availableMicrophones]. *)
Record MediaDevice := mkDevice {
  deviceId : JSString;
  label : JSString
}.

(** [handleMicrophoneChange]; the list comes from the microphone hook. *)
Definition handleMicrophoneChange (availableMicrophones : list MediaDevice)
    (deviceId' : JSString) (a : AppState) : AppState :=
  let device :=
    List.find (λ m, strictEq (deviceId m) deviceId') availableMicrophones in
  let shown :=
    match device with
    | Some m => if truthy (label m) then label m else T.defaultMicrophone (t a)
    | None => T.defaultMicrophone (t a)
    end in
  notify (T.microphoneChanged (t a) ++ js ": " ++ shown) info
    (withSettings (updateMicrophone deviceId' (settings a)) a).

(** [onError]; [errorMessage] is the message of the error when it is an
    [Error]. *)
Definition onError (errorMessage : option JSString) (a : AppState)
    : AppState :=
  notify
    (T.connectionError (t a) ++ js ": "
     ++ match errorMessage with
        | Some m => m
        | None => T.unknownError (t a)
        end)
    error a.

(** [handleLanguageChange]. *)
Definition handleLanguageChange (lang : Language) (a : AppState) : AppState :=
  notify (T.languageChanged (translations lang)) info
    (withSettings (updateLanguage lang (settings a)) a).

(** A confirmed transcript as the item that the export functions read. *)
Definition toItem (e : Transcript) : TranscriptItem :=
  mkItem (entryTimestamp e) (entryText e).

(** [orderedTranscripts] of the two export handlers. *)
Definition orderedTranscripts (a : AppState) : list TranscriptItem :=
  toItem
    <$> (if newestFirst (settings a).1
         then reverse (transcriptsWithTimestamps (page a))
         else transcriptsWithTimestamps (page a)).

(** [handleExportCSV]: the new state and the download, if any. *)
Definition handleExportCSV (isoNow : JSString) (a : AppState)
    : AppState * option Download :=
  match transcriptsWithTimestamps (page a) with
  | [] => (notify (T.noTranscriptsToExport (t a)) info a, None)
  | _ :: _ =>
      (notify (T.transcriptsExported (t a)) success a,
       Some (exportAsCSV (orderedTranscripts a) (js "transcripts") isoNow))
  end.

Section WithEngine.

Variable toLowerCase : JSString -> JSString.

(** [handleExportPDF]: the new state and what was done to the window
    that [window.open] returned, if the export was attempted. *)
Definition handleExportPDF (printWindow : option unit)
    (currentDate : JSString) (now : LocalTime) (a : AppState)
    : AppState * option (list PrintAction) :=
  match transcriptsWithTimestamps (page a) with
  | [] => (notify (T.noTranscriptsToExport (t a)) info a, None)
  | _ :: _ =>
      let '(success', actions) :=
        exportAsPDF toLowerCase printWindow (orderedTranscripts a)
          (T.title (t a)) (T.confirmedTranscripts (t a)) (T.pdfDate (t a))
          (T.pdfTotalTranscripts (t a)) (highlightRules (settings a).1)
          (partialMatchHighlight (settings a).1) currentDate now in
      if negb success' then
        (notify (js "Please allow popups to export PDF") error a,
         Some actions)
      else (notify (T.transcriptsExported (t a)) success a, Some actions)
  end.

End WithEngine.

(** [handleAddHighlight]; [now] is [Date.now().toString()]. *)
Definition handleAddHighlight (word' color' now : JSString) (a : AppState)
    : AppState :=
  notify (T.highlightAdded (t a)) success
    (withSettings (addHighlightRule word' color' now (settings a)) a).

(** [handleRemoveHighlight]. *)
Definition handleRemoveHighlight (id' : JSString) (a : AppState) : AppState :=
  notify (T.highlightRemoved (t a)) info
    (withSettings (removeHighlightRule id' (settings a)) a).

(** The question put to [window.confirm] by [handleClearTranscripts]. *)
Definition clearPrompt (a : AppState) : JSString :=
  if strictEq (T.language (t a)) (js "en") then
    js "Are you sure you want to clear all transcripts? This cannot be undone."
  else
    js "Haluatko varmasti tyhjent" ++ [0xE4; 0xE4]
    ++ js " kaikki transkriptiot? T" ++ [0xE4] ++ js "t" ++ [0xE4]
    ++ js " ei voi perua.".

(** [handleClearTranscripts]; [confirmed] is the answer. *)
Definition handleClearTranscripts (confirmed : bool) (a : AppState)
    : AppState :=
  if confirmed then
    notify
      (if strictEq (T.language (t a)) (js "en")
       then js "All transcripts cleared"
       else js "Kaikki transkriptiot tyhjennetty")
      info
      (withPage (handleClearTranscripts true (page a)) a)
  else a.

(** [handleTogglePartialMatch]. *)
Definition handleTogglePartialMatch (a : AppState) : AppState :=
  let newValue := negb (partialMatchHighlight (settings a).1) in
  notify
    (if newValue then T.partialMatchingEnabled (t a)
     else T.partialMatchingDisabled (t a))
    info
    (withSettings (updatePartialMatchHighlight newValue (settings a)) a).

(** [handleToggleNewestFirst]. *)
Definition handleToggleNewestFirst (a : AppState) : AppState :=
  let newValue := negb (newestFirst (settings a).1) in
  notify (T.transcriptOrderChanged (t a)) info
    (withSettings (updateNewestFirst newValue (settings a)) a).

(** [handleBeforeUnload] asks for confirmation. *)
Definition warnsBeforeUnload (a : AppState) : bool :=
  match transcriptsWithTimestamps (page a) with
  | [] => false
  | _ :: _ => true
  end.

(** What can happen to the page: the events of the transcription
    service, the clicks that reach the handlers above, and the timer
    that takes a notification away. *)
Inductive AppEvent :=
  | Scribe (e : PageEvent)
  | ScribeError (errorMessage : option JSString)
  | MicrophoneChange (availableMicrophones : list MediaDevice)
                     (deviceId' : JSString)
  | SettingsClick
  | OpenApiKeyModal
  | CloseApiKeyModal
  | TempApiKeyChange (k : JSString)
  | SaveApiKey
  | ClearApiKey
  | ToggleEchoCancellation
  | ToggleNoiseSuppression
  | LanguageChange (lang : Language)
  | ExportCSV (isoNow : JSString)
  | ExportPDF (printWindow : option unit) (currentDate : JSString)
              (now : LocalTime)
  | AddHighlight (word' color' now : JSString)
  | RemoveHighlight (id' : JSString)
  | ClearAll (confirmed : bool)
  | TogglePartialMatch
  | ToggleNewestFirst
  | NotificationTimeout.

Section Step.

Variable toLowerCase : JSString -> JSString.

Definition step (a : AppState) (e : AppEvent) : AppState :=
  match e with
  | Scribe e' => withPage (handle (page a) e') a
  | ScribeError m => onError m a
  | MicrophoneChange ms d => handleMicrophoneChange ms d a
  | SettingsClick => setShowSettings (negb (showSettings a)) a
  | OpenApiKeyModal =>
      setShowApiKeyModal true (setTempApiKey (apiKey (settings a).1) a)
  | CloseApiKeyModal => setShowApiKeyModal false a
  | TempApiKeyChange k => setTempApiKey k a
  | SaveApiKey => handleSaveApiKey a
  | ClearApiKey => handleClearApiKey a
  | ToggleEchoCancellation => handleToggleEchoCancellation a
  | ToggleNoiseSuppression => handleToggleNoiseSuppression a
  | LanguageChange lang => handleLanguageChange lang a
  | ExportCSV isoNow => (handleExportCSV isoNow a).1
  | ExportPDF w d now => (handleExportPDF toLowerCase w d now a).1
  | AddHighlight w c now => handleAddHighlight w c now a
  | RemoveHighlight i => handleRemoveHighlight i a
  | ClearAll c => handleClearTranscripts c a
  | TogglePartialMatch => handleTogglePartialMatch a
  | ToggleNewestFirst => handleToggleNewestFirst a
  | NotificationTimeout => setNotification None a
  end.

End Step.

End App.

(** ** Specification vocabulary *)

(** [sub] occurs in [s] as a contiguous substring. *)
Definition Substring (sub s : JSString) : Prop :=
  ∃ pre post, s = pre ++ sub ++ post.

(** A token is a maximal-run candidate: not empty, and its code units are
    all whitespace or all non-whitespace. *)
Definition IsRun (token : JSString) : Prop :=
  token ≠ [] ∧ ∃ ws : bool, Forall (λ c, isWhiteSpace c = ws) token.

(** Neighbouring tokens are of different kinds, so no run can be extended. *)
Definition Alternating (tokens : list JSString) : Prop :=
  ∀ i (t1 t2 : JSString),
    tokens !! i = Some t1 → tokens !! S i = Some t2 →
    isWhitespaceToken t1 ≠ isWhitespaceToken t2.

Section HighlightSpec.

Variable toLowerCase : JSString -> JSString.

(** The lowercased token equals the lowercased rule word. *)
Definition ExactMatch (token : JSString) (rule : HighlightRule) : Prop :=
  toLowerCase token = toLowerCase (word rule).

(** Partial matching is enabled and the lowercased rule word is a
    substring of the lowercased token. *)
Definition PartialMatch (partialMatch : bool) (token : JSString)
    (rule : HighlightRule) : Prop :=
  partialMatch = true
  ∧ Substring (toLowerCase (word rule)) (toLowerCase token).

Definition Matches (partialMatch : bool) (token : JSString)
    (rule : HighlightRule) : Prop :=
  ExactMatch token rule ∨ PartialMatch partialMatch token rule.

(** The rule at index [j] is the first one in the list that matches. *)
Definition FirstMatch (partialMatch : bool) (token : JSString)
    (rules : list HighlightRule) (j : nat) (r : HighlightRule) : Prop :=
  rules !! j = Some r ∧ Matches partialMatch token r
  ∧ ∀ i r', rules !! i = Some r' → (i < j)%nat →
            ¬ Matches partialMatch token r'.

(** [isPartialMatch] of a rule that matched: the match is not exact. *)
Definition partialOf (token : JSString) (r : HighlightRule) : bool :=
  negb (strictEq (toLowerCase token) (toLowerCase (word r))).

(** [isMatch] of one rule, as a boolean. *)
Definition isMatch (partialMatch : bool) (token : JSString)
    (rule : HighlightRule) : bool :=
  (testRule toLowerCase rule token partialMatch).1.

(** The rule that highlights a token: the index and the rule at which a
    scan of the list for [isMatch] stops. *)
Definition winner (rules : list HighlightRule) (partialMatch : bool)
    (token : JSString) : option (nat * HighlightRule) :=
  list_find (λ r, isMatch partialMatch token r = true) rules.

(** The token is highlighted by the rule at index [j]. *)
Definition HighlightedBy (rules : list HighlightRule) (partialMatch : bool)
    (token : JSString) (j : nat) : Prop :=
  ∃ r, winner rules partialMatch token = Some (j, r).

(** How a token is shown: as it is, or highlighted by a rule, with or
    without the partial-match indicator. *)
Inductive Mark :=
  | Plain
  | Highlighted (rule : HighlightRule) (isPartial : bool).

Definition markOf (rules : list HighlightRule) (partialMatch : bool)
    (token : JSString) : Mark :=
  if isWhitespaceToken token then Plain
  else
    match winner rules partialMatch token with
    | Some (_, r) =>
        Highlighted r (partialOf token r)
    | None => Plain
    end.

End HighlightSpec.

(** The markup put before and after a token with a given mark. *)
Definition markupBefore (m : Mark) : JSString :=
  match m with
  | Plain => []
  | Highlighted r _ => spanOpenHTML (color r) (textColorOf (color r))
  end.

Definition markupAfter (m : Mark) : JSString :=
  match m with
  | Plain => []
  | Highlighted _ isPartial =>
      (if isPartial then partialIndicatorHTML else []) ++ spanCloseHTML
  end.

(** The React nodes for a list of marked tokens, numbering the spans
    from [keyIndex]. *)
Fixpoint reactOfMarks (tip : JSString) (keyIndex : nat)
    (marked : list (JSString * Mark)) : list ReactNode :=
  match marked with
  | [] => []
  | (token, Plain) :: rest => RText token :: reactOfMarks tip keyIndex rest
  | (token, Highlighted r isPartial) :: rest =>
      RSpan keyIndex (color r) (textColorOf (color r)) token
            (if isPartial then Some tip else None)
      :: reactOfMarks tip (S keyIndex) rest
  end.

(** The HTML serialization of a React node, with the markup of
    [applyHighlightsToHTML]. *)
Definition nodeHTML (n : ReactNode) : JSString :=
  match n with
  | RText s => s
  | RSpan _ bg fg token indicator =>
      spanOpenHTML bg fg ++ token
      ++ match indicator with
         | Some _ => partialIndicatorHTML
         | None => []
         end
      ++ spanCloseHTML
  end.

(** Every double quote doubled. *)
Definition doubled (s : JSString) : JSString :=
  s ≫= (λ c, if decide (c = 34) then [34; 34] else [c]).

(** A backslash put before every character of the class, and nothing
    else. *)
Definition backslashed (s : JSString) : JSString :=
  s ≫= (λ c, if decide (c ∈ regexSpecials) then [92; c] else [c]).

(** The string that a pattern made of plain characters and escaped
    syntax characters stands for.  A backslash before a character of the
    class makes it stand for itself; a character of the class that is not
    escaped is an operator, and a backslash before any other character
    is a class or control escape: such a pattern is not a literal. *)
Fixpoint literalOf (pattern : JSString) : option JSString :=
  match pattern with
  | [] => Some []
  | c :: rest =>
      if c =? 92 then
        match rest with
        | d :: rest' =>
            if isRegexSpecial d then (d ::.) <$> literalOf rest' else None
        | [] => None
        end
      else if isRegexSpecial c then None
      else (c ::.) <$> literalOf rest
  end.

(** * Properties *)

(** ** Strings and tokens *)

Lemma startsWith_spec (s p : JSString) :
  startsWith s p = true ↔ ∃ post, s = p ++ post.
Proof.
  revert s; induction p as [|x p IH]; intros s; simpl.
  - split; [intros _; by exists s | done].
  - destruct s as [|y s]; simpl.
    + split; [done | intros [post H]; discriminate H].
    + rewrite andb_true_iff, N.eqb_eq, IH. split.
      * intros [-> [post ->]]. eauto.
      * intros [post H]. injection H as -> ->. eauto.
Qed.

Lemma includes_spec (s sub : JSString) :
  includes s sub = true ↔ Substring sub s.
Proof.
  unfold Substring. induction s as [|c s IH].
  - simpl. rewrite orb_false_r, startsWith_spec. split.
    + intros [post H]. exists [], post. done.
    + intros (pre & post & H). symmetry in H.
      apply app_eq_nil in H as [-> H]. exists post. done.
  - cbn [includes]. rewrite orb_true_iff, startsWith_spec, IH. split.
    + intros [[post H] | (pre & post & H)].
      * exists [], post. done.
      * exists (c :: pre), post. by rewrite H.
    + intros (pre & post & H). destruct pre as [|d pre].
      * left. exists post. done.
      * right. injection H as _ H. eauto.
Qed.

Lemma includes_nil (s : JSString) : includes s [] = true.
Proof. apply includes_spec. exists [], s. done. Qed.

Lemma strictEq_true (a b : JSString) : strictEq a b = true ↔ a = b.
Proof. unfold strictEq. apply bool_decide_eq_true. Qed.

Lemma strictEq_false (a b : JSString) : strictEq a b = false ↔ a ≠ b.
Proof. unfold strictEq. apply bool_decide_eq_false. Qed.

Lemma join_nil_concat (l : list JSString) : join [] l = concat l.
Proof.
  induction l as [|x [|y l] IH]; simpl in *; [done | by rewrite app_nil_r |].
  by rewrite IH.
Qed.

Lemma greedy_spec (p : N → bool) (s run rest : JSString) :
  greedy p s = (run, rest) →
  s = run ++ rest ∧ forallb p run = true
  ∧ (head rest ≫= λ c, Some (p c)) ≠ Some true.
Proof.
  revert run rest; induction s as [|c s IH]; intros run rest; simpl.
  - intros [= <- <-]. done.
  - destruct (p c) eqn:Hc.
    + destruct (greedy p s) as [run' rest'] eqn:Hg. intros [= <- <-].
      destruct (IH _ _ eq_refl) as (-> & Hall & Hh).
      simpl. rewrite Hc. done.
    + intros [= <- <-]. simpl. rewrite Hc. done.
Qed.

Lemma forallb_Forall_true {A} (f : A → bool) (l : list A) :
  forallb f l = true ↔ Forall (λ x, f x = true) l.
Proof.
  induction l as [|x l IH]; simpl; [by split; constructor|].
  rewrite andb_true_iff, IH, Forall_cons. done.
Qed.

Lemma greedy_ext (p q : N → bool) (s : JSString) :
  (∀ c, p c = q c) → greedy p s = greedy q s.
Proof.
  intros Hpq. induction s as [|c s IH]; simpl; [done|].
  by rewrite Hpq, IH.
Qed.

(** One match of the token pattern: the run that starts at [c]. *)
Lemma matchFrom_step (n : nat) (c : N) (s : JSString) :
  ∃ run rest,
    matchFrom (S n) (c :: s) = (c :: run) :: matchFrom n rest
    ∧ s = run ++ rest
    ∧ Forall (λ d, isWhiteSpace d = isWhiteSpace c) run
    ∧ ∀ d rest', rest = d :: rest' → isWhiteSpace d ≠ isWhiteSpace c.
Proof.
  set (same := λ d, bool_decide (isWhiteSpace d = isWhiteSpace c)).
  assert (Hg : (if negb (isWhiteSpace c)
                then greedy (λ d, negb (isWhiteSpace d)) s
                else greedy isWhiteSpace s) = greedy same s).
  { destruct (isWhiteSpace c) eqn:Hc; simpl; apply greedy_ext; intros d;
      unfold same; destruct (isWhiteSpace d); done. }
  simpl. rewrite Hg. destruct (greedy same s) as [run rest] eqn:Hgr.
  apply greedy_spec in Hgr as (Hs & Hall & Hhead).
  exists run, rest. split_and!; [done | done | |].
  - apply forallb_Forall_true in Hall.
    eapply Forall_impl; [exact Hall|]. intros d Hd.
    unfold same in Hd. by apply bool_decide_eq_true in Hd.
  - intros d rest' -> Heq. apply Hhead. simpl. f_equal.
    unfold same. by apply bool_decide_eq_true.
Qed.

Lemma isWhitespaceToken_run (c : N) (run : JSString) :
  Forall (λ d, isWhiteSpace d = isWhiteSpace c) run →
  isWhitespaceToken (c :: run) = isWhiteSpace c.
Proof.
  intros Hrun. unfold isWhitespaceToken. simpl.
  destruct (isWhiteSpace c) eqn:Hc; [|done]. simpl.
  apply forallb_Forall_true.
  eapply Forall_impl; [exact Hrun|]. intros d Hd. by rewrite Hd.
Qed.

Lemma trim_whitespace (s : JSString) :
  forallb isWhiteSpace s = true → trim s = [].
Proof.
  intros Hs. unfold trim.
  assert (trimStart s = []) as ->; [|done].
  induction s as [|c s IH]; [done|]. simpl in *.
  apply andb_true_iff in Hs as [-> Hs]. auto.
Qed.

Lemma matchFrom_concat (n : nat) (s : JSString) :
  (length s ≤ n)%nat → concat (matchFrom n s) = s.
Proof.
  revert s; induction n as [|n IH]; intros [|c s] Hlen; simpl in Hlen;
    [done | lia | done |].
  destruct (matchFrom_step n c s) as (run & rest & -> & -> & _ & _).
  rewrite length_app in Hlen. simpl. rewrite IH by lia. done.
Qed.

Lemma matchFrom_runs (n : nat) (s : JSString) :
  Forall IsRun (matchFrom n s).
Proof.
  revert s; induction n as [|n IH]; intros [|c s]; try by constructor.
  destruct (matchFrom_step n c s) as (run & rest & -> & _ & Hrun & _).
  constructor; [|apply IH].
  split; [done|]. exists (isWhiteSpace c). by constructor.
Qed.

Lemma matchFrom_alternating (n : nat) (s : JSString) :
  Alternating (matchFrom n s).
Proof.
  revert s; induction n as [|n IH]; intros [|c s]; try by intros [|?] ???.
  destruct (matchFrom_step n c s) as (run & rest & -> & _ & Hrun & Hnext).
  intros [|i] t1 t2; simpl.
  - intros [= <-] H2. rewrite (isWhitespaceToken_run _ _ Hrun).
    destruct n as [|n]; [done|]. destruct rest as [|d rest]; [done|].
    destruct (matchFrom_step n d rest) as (run' & rest' & Hm & _ & Hrun' & _).
    rewrite Hm in H2. injection H2 as <-.
    rewrite (isWhitespaceToken_run _ _ Hrun'). intros Heq.
    by apply (Hnext d rest).
  - apply IH.
Qed.

(** The tokens of a text are its maximal runs, in order. *)
Lemma matchTokens_concat (text : JSString) : concat (matchTokens text) = text.
Proof. by apply matchFrom_concat. Qed.

Lemma matchTokens_nil (text : JSString) : matchTokens text = [] ↔ text = [].
Proof.
  split; [|by intros ->].
  intros H. by rewrite <- (matchTokens_concat text), H.
Qed.

(** ** The matching logic of the two renderers *)

Section HighlightProps.

Variable toLowerCase : JSString -> JSString.

Lemma testRule_eq (r : HighlightRule) (token : JSString) (pm : bool) :
  testRule toLowerCase r token pm
  = (isMatch toLowerCase pm token r,
     isMatch toLowerCase pm token r && partialOf toLowerCase token r).
Proof.
  unfold isMatch, testRule, partialOf.
  destruct (strictEq _ _); [done|].
  by destruct (pm && includes _ _).
Qed.

Lemma isMatch_Matches (pm : bool) (token : JSString) (r : HighlightRule) :
  isMatch toLowerCase pm token r = true ↔ Matches toLowerCase pm token r.
Proof.
  unfold isMatch, testRule, Matches, ExactMatch, PartialMatch.
  destruct (strictEq _ _) eqn:He.
  - apply strictEq_true in He. simpl. split; auto.
  - apply strictEq_false in He.
    destruct pm; simpl.
    + destruct (includes _ _) eqn:Hi; simpl.
      * apply includes_spec in Hi. split; auto.
      * split; [done|]. intros [?|[_ Hs]]; [done|].
        apply includes_spec in Hs. congruence.
    + split; [done|]. by intros [?|[? _]].
Qed.

Lemma winner_FirstMatch (rules : list HighlightRule) (pm : bool)
    (token : JSString) (j : nat) (r : HighlightRule) :
  winner toLowerCase rules pm token = Some (j, r)
  ↔ FirstMatch toLowerCase pm token rules j r.
Proof.
  unfold winner, FirstMatch. rewrite list_find_Some.
  rewrite isMatch_Matches.
  split; intros (? & ? & Hlt); split_and!; try done;
    intros i r' ? ?; specialize (Hlt i r'); rewrite isMatch_Matches in *; auto.
Qed.

Lemma winner_None (rules : list HighlightRule) (pm : bool) (token : JSString) :
  winner toLowerCase rules pm token = None
  ↔ ∀ r, r ∈ rules → ¬ Matches toLowerCase pm token r.
Proof.
  unfold winner. rewrite list_find_None, Forall_forall.
  split; intros H r Hr; specialize (H r Hr); by rewrite isMatch_Matches in *.
Qed.

(** Both rule loops stop at the winner and wrap the token in its span. *)
Lemma htmlRuleLoop_winner (rules : list HighlightRule) (token : JSString)
    (pm : bool) :
  htmlRuleLoop toLowerCase rules token pm
  = (λ jr : nat * HighlightRule,
       spanOpenHTML (color jr.2) (textColorOf (color jr.2)) ++ token
       ++ (if partialOf toLowerCase token jr.2 then partialIndicatorHTML
           else [])
       ++ spanCloseHTML) <$> winner toLowerCase rules pm token.
Proof.
  unfold winner. induction rules as [|r rules IH]; [done|].
  cbn [htmlRuleLoop list_find]. rewrite testRule_eq.
  destruct (isMatch toLowerCase pm token r) eqn:Hm.
  - rewrite decide_True by done. done.
  - rewrite decide_False by done. rewrite IH.
    by destruct (list_find _ rules) as [[j r']|].
Qed.

Lemma reactRuleLoop_winner (rules : list HighlightRule) (token : JSString)
    (pm : bool) (tip : JSString) (k : nat) :
  reactRuleLoop toLowerCase rules token pm tip k
  = (λ jr : nat * HighlightRule,
       RSpan k (color jr.2) (textColorOf (color jr.2)) token
         (if partialOf toLowerCase token jr.2 then Some tip else None))
    <$> winner toLowerCase rules pm token.
Proof.
  unfold winner. induction rules as [|r rules IH]; [done|].
  cbn [reactRuleLoop list_find]. rewrite testRule_eq.
  destruct (isMatch toLowerCase pm token r) eqn:Hm.
  - rewrite decide_True by done. done.
  - rewrite decide_False by done. rewrite IH.
    by destruct (list_find _ rules) as [[j r']|].
Qed.

(** Per token, both renderers show the mark of the token. *)
Lemma htmlOfToken_mark (rules : list HighlightRule) (pm : bool)
    (token : JSString) :
  htmlOfToken toLowerCase rules pm token
  = markupBefore (markOf toLowerCase rules pm token) ++ token
    ++ markupAfter (markOf toLowerCase rules pm token).
Proof.
  unfold htmlOfToken, markOf.
  destruct (isWhitespaceToken token); [by rewrite app_nil_r|].
  rewrite htmlRuleLoop_winner.
  destruct (winner toLowerCase rules pm token) as [[j r]|]; simpl; [done|].
  by rewrite app_nil_r.
Qed.

Lemma reactStep_mark (rules : list HighlightRule) (pm : bool) (tip : JSString)
    (parts : list ReactNode) (k : nat) (token : JSString) :
  reactStep toLowerCase rules pm tip (parts, k) token
  = match markOf toLowerCase rules pm token with
    | Plain => (parts ++ [RText token], k)
    | Highlighted r isPartial =>
        (parts ++ [RSpan k (color r) (textColorOf (color r)) token
                     (if isPartial then Some tip else None)], S k)
    end.
Proof.
  unfold reactStep, markOf.
  destruct (isWhitespaceToken token); [done|].
  rewrite reactRuleLoop_winner.
  by destruct (winner toLowerCase rules pm token) as [[j r]|].
Qed.

Lemma reactFold_marks (rules : list HighlightRule) (pm : bool) (tip : JSString)
    (tokens : list JSString) (parts : list ReactNode) (k : nat) :
  (fold_left (reactStep toLowerCase rules pm tip) tokens (parts, k)).1
  = parts
    ++ reactOfMarks tip k ((λ t, (t, markOf toLowerCase rules pm t)) <$> tokens).
Proof.
  revert parts k; induction tokens as [|t tokens IH]; intros parts k;
    cbn [fold_left fmap list_fmap].
  - simpl. by rewrite app_nil_r.
  - rewrite reactStep_mark.
    destruct (markOf toLowerCase rules pm t); rewrite IH, <- app_assoc; done.
Qed.

Lemma concat_html_marks (rules : list HighlightRule) (pm : bool)
    (tokens : list JSString) :
  concat (htmlOfToken toLowerCase rules pm <$> tokens)
  = concat ((λ t, markupBefore (markOf toLowerCase rules pm t) ++ t
                  ++ markupAfter (markOf toLowerCase rules pm t)) <$> tokens).
Proof.
  f_equal. apply list_fmap_ext. intros _ t _. apply htmlOfToken_mark.
Qed.

Lemma markOf_no_rules (pm : bool) (token : JSString) :
  markOf toLowerCase [] pm token = Plain.
Proof. unfold markOf. by destruct (isWhitespaceToken token). Qed.

(** The HTML string as the concatenation of the marked tokens; it holds
    for an empty rule list too, where every mark is [Plain]. *)
Lemma applyHighlightsToHTML_marks (text : JSString)
    (rules : list HighlightRule) (pm : bool) :
  applyHighlightsToHTML toLowerCase text rules pm
  = concat ((λ t, markupBefore (markOf toLowerCase rules pm t) ++ t
                  ++ markupAfter (markOf toLowerCase rules pm t))
              <$> matchTokens text).
Proof.
  unfold applyHighlightsToHTML. destruct rules as [|r rules].
  - rewrite <- (matchTokens_concat text) at 1. f_equal.
    rewrite <- (list_fmap_id (matchTokens text)) at 1.
    apply list_fmap_ext. intros _ t _.
    rewrite markOf_no_rules. simpl. by rewrite app_nil_r.
  - rewrite join_nil_concat. apply concat_html_marks.
Qed.

Lemma applyHighlights_marks (text : JSString) (rules : list HighlightRule)
    (pm : bool) (tip : JSString) :
  rules ≠ [] → text ≠ [] →
  applyHighlights toLowerCase text rules pm tip
  = reactOfMarks tip 0
      ((λ t, (t, markOf toLowerCase rules pm t)) <$> matchTokens text).
Proof.
  intros Hrules Htext. unfold applyHighlights.
  destruct rules as [|r rules]; [done|].
  pose proof (reactFold_marks (r :: rules) pm tip (matchTokens text) [] 0)
    as Hf.
  destruct (fold_left _ _ _) as [parts k]. simpl in Hf. subst parts.
  destruct (matchTokens text) as [|t ts] eqn:Ht.
  - by apply matchTokens_nil in Ht.
  - simpl. by destruct (markOf toLowerCase (r :: rules) pm t).
Qed.

Lemma nodeHTML_reactOfMarks (tip : JSString) (k : nat)
    (marked : list (JSString * Mark)) :
  concat (nodeHTML <$> reactOfMarks tip k marked)
  = concat ((λ tm : JSString * Mark,
               markupBefore tm.2 ++ tm.1 ++ markupAfter tm.2) <$> marked).
Proof.
  revert k; induction marked as [|[t [|r p]] marked IH]; intros k; simpl.
  - done.
  - by rewrite IH, app_nil_r.
  - rewrite IH. destruct p; simpl; by rewrite <- !app_assoc.
Qed.

Lemma reactOfMarks_length (tip : JSString) (k : nat)
    (marked : list (JSString * Mark)) :
  length (reactOfMarks tip k marked) = length marked.
Proof.
  revert k; induction marked as [|[t [|r p]] marked IH]; intros k; simpl;
    by rewrite ?IH.
Qed.

Lemma reactOfMarks_lookup (tip : JSString) (k : nat)
    (marked : list (JSString * Mark)) (i : nat) (t : JSString) (m : Mark) :
  marked !! i = Some (t, m) →
  ∃ k', reactOfMarks tip k marked !! i
        = Some match m with
               | Plain => RText t
               | Highlighted r p =>
                   RSpan k' (color r) (textColorOf (color r)) t
                     (if p then Some tip else None)
               end.
Proof.
  revert k i; induction marked as [|[t0 m0] marked IH]; intros k [|i] Hi;
    simplify_eq/=.
  - destruct m; by eexists.
  - destruct m0; simpl; eauto.
Qed.

(** The node that [applyHighlights] returns at the position of a token. *)
Lemma applyHighlights_at (text : JSString) (rules : list HighlightRule)
    (pm : bool) (tip : JSString) (i : nat) (token : JSString) :
  rules ≠ [] → matchTokens text !! i = Some token →
  ∃ k, applyHighlights toLowerCase text rules pm tip !! i
       = Some match markOf toLowerCase rules pm token with
              | Plain => RText token
              | Highlighted r p =>
                  RSpan k (color r) (textColorOf (color r)) token
                    (if p then Some tip else None)
              end.
Proof.
  intros Hrules Hi.
  assert (text ≠ []) as Htext by (intros ->; done).
  rewrite applyHighlights_marks by done.
  apply reactOfMarks_lookup. by rewrite list_lookup_fmap, Hi.
Qed.

(** The HTML string around the piece of one token. *)
Lemma applyHighlightsToHTML_at (text : JSString) (rules : list HighlightRule)
    (pm : bool) (i : nat) (token : JSString) :
  matchTokens text !! i = Some token →
  applyHighlightsToHTML toLowerCase text rules pm
  = concat (htmlOfToken toLowerCase rules pm <$> take i (matchTokens text))
    ++ htmlOfToken toLowerCase rules pm token
    ++ concat (htmlOfToken toLowerCase rules pm
                 <$> drop (S i) (matchTokens text)).
Proof.
  intros Hi. rewrite applyHighlightsToHTML_marks, <- concat_html_marks.
  rewrite <- (take_drop_middle _ _ _ Hi) at 1.
  by rewrite fmap_app, concat_app.
Qed.

(** A token that is not whitespace and has a winner is shown as the span
    of the winner by either renderer. *)
Lemma markOf_winner (rules : list HighlightRule) (pm : bool)
    (token : JSString) (j : nat) (r : HighlightRule) :
  isWhitespaceToken token = false →
  winner toLowerCase rules pm token = Some (j, r) →
  markOf toLowerCase rules pm token
  = Highlighted r (partialOf toLowerCase token r).
Proof. intros Hws Hw. unfold markOf. by rewrite Hws, Hw. Qed.

Lemma markOf_unmatched (rules : list HighlightRule) (pm : bool)
    (token : JSString) :
  winner toLowerCase rules pm token = None →
  markOf toLowerCase rules pm token = Plain.
Proof.
  intros Hw. unfold markOf. rewrite Hw. by destruct (isWhitespaceToken token).
Qed.

Lemma markOf_whitespace (rules : list HighlightRule) (pm : bool)
    (token : JSString) :
  isWhitespaceToken token = true → markOf toLowerCase rules pm token = Plain.
Proof. intros Hws. unfold markOf. by rewrite Hws. Qed.

Lemma winner_rendered (text : JSString) (rules : list HighlightRule)
    (pm : bool) (tip : JSString) (i : nat) (token : JSString)
    (j : nat) (r : HighlightRule) :
  matchTokens text !! i = Some token →
  isWhitespaceToken token = false →
  winner toLowerCase rules pm token = Some (j, r) →
  (∃ k, applyHighlights toLowerCase text rules pm tip !! i
        = Some (RSpan k (color r) (textColorOf (color r)) token
                  (if partialOf toLowerCase token r then Some tip else None)))
  ∧ htmlOfToken toLowerCase rules pm token
    = spanOpenHTML (color r) (textColorOf (color r)) ++ token
      ++ (if partialOf toLowerCase token r then partialIndicatorHTML else [])
      ++ spanCloseHTML.
Proof.
  intros Hi Hws Hw.
  assert (rules ≠ []) as Hrules by (by intros ->).
  split.
  - destruct (applyHighlights_at text rules pm tip i token) as [k Hk];
      [done | done |].
    rewrite (markOf_winner _ _ _ _ _ Hws Hw) in Hk. eauto.
  - rewrite htmlOfToken_mark, (markOf_winner _ _ _ _ _ Hws Hw).
    simpl. by rewrite <- !app_assoc.
Qed.


(** Each token gives one node and one piece of HTML, with at most one
    span around it. *)
Lemma reactOfMarks_one_node (tip : JSString) (f : JSString → Mark)
    (tokens : list JSString) (k : nat) :
  Forall2 (λ t node, node = RText t
                     ∨ ∃ k' bg fg ind, node = RSpan k' bg fg t ind)
    tokens (reactOfMarks tip k ((λ t, (t, f t)) <$> tokens)).
Proof.
  revert k; induction tokens as [|t tokens IH]; intros k; simpl;
    [constructor|].
  destruct (f t); constructor; eauto 6.
Qed.

Lemma htmlOfToken_one_span (rules : list HighlightRule) (pm : bool)
    (token : JSString) :
  htmlOfToken toLowerCase rules pm token = token
  ∨ ∃ bg fg ind,
      htmlOfToken toLowerCase rules pm token
      = spanOpenHTML bg fg ++ token ++ ind ++ spanCloseHTML
      ∧ (ind = [] ∨ ind = partialIndicatorHTML).
Proof.
  rewrite htmlOfToken_mark.
  destruct (markOf toLowerCase rules pm token) as [|r p]; simpl.
  - left. by rewrite app_nil_r.
  - right. exists (color r), (textColorOf (color r)).
    exists (if p then partialIndicatorHTML else []).
    split; [done|]. destruct p; auto.
Qed.

Lemma applyHighlightsToHTML_tokens (text : JSString)
    (rules : list HighlightRule) (pm : bool) :
  applyHighlightsToHTML toLowerCase text rules pm
  = concat (htmlOfToken toLowerCase rules pm <$> matchTokens text).
Proof. by rewrite applyHighlightsToHTML_marks, <- concat_html_marks. Qed.

End HighlightProps.

(** ** The span markup *)

(** The last occurrence of a character splits a string in one way. *)
Lemma last_split_unique (c : N) (l l' a b : JSString) :
  c ∉ a → c ∉ b → l ++ c :: a = l' ++ c :: b → a = b.
Proof.
  intros Ha Hb. revert l'.
  induction l as [|x l IH]; intros [|y l']; simpl; intros H; simplify_eq.
  - done.
  - destruct Ha. apply elem_of_app. right. by left.
  - destruct Hb. apply elem_of_app. right. by left.
  - by eapply IH.
Qed.

Lemma textColorOf_length (c : JSString) : length (textColorOf c) = 7%nat.
Proof.
  unfold textColorOf.
  destruct (List.find _ HIGHLIGHT_COLORS) as [cfg|] eqn:Hfind; [|done].
  apply find_some in Hfind as [Hin _]. simpl in Hin.
  repeat (destruct Hin as [<-|Hin]; [reflexivity|]). done.
Qed.

(** A non-whitespace token of a text has no space in it. *)
Lemma token_no_space (text : JSString) (i : nat) (token : JSString) :
  matchTokens text !! i = Some token →
  isWhitespaceToken token = false → 32 ∉ token.
Proof.
  intros Hi Hws Hin.
  pose proof (matchFrom_runs (length text) text) as Hruns.
  rewrite Forall_lookup in Hruns.
  destruct (Hruns i token Hi) as [Hne [ws Hall]].
  rewrite Forall_forall in Hall.
  destruct ws; [|by specialize (Hall 32 Hin)].
  destruct token as [|c run]; [done|].
  rewrite isWhitespaceToken_run in Hws.
  - rewrite (Hall c) in Hws by (by left). done.
  - apply Forall_forall. intros d Hd.
    rewrite (Hall c) by (by left). apply Hall. by right.
Qed.

(** A span is longer than its token. *)
Lemma spanHTML_not_token (bg fg token ind : JSString) :
  spanOpenHTML bg fg ++ token ++ ind ++ spanCloseHTML ≠ token.
Proof.
  intros H%(f_equal length). rewrite !length_app in H.
  unfold spanOpenHTML in H. rewrite !length_app in H. simpl in H. lia.
Qed.

(** The span markup around a token without spaces tells the background
    colour and whether the indicator is there. *)
Lemma spanHTML_indicator (bg fg bg' fg' token : JSString) :
  32 ∉ token →
  spanOpenHTML bg fg ++ token ++ partialIndicatorHTML ++ spanCloseHTML
  ≠ spanOpenHTML bg' fg' ++ token ++ [] ++ spanCloseHTML.
Proof.
  intros Hws H. rewrite app_nil_l, !app_assoc in H. apply app_inv_tail in H.
  assert (((spanOpenHTML bg fg ++ token)
           ++ js "<span style=" ++ dq
           ++ js "position: absolute; top: -7px; right: -5px; "
           ++ js "font-size: 2em; line-height: 1; opacity:")
          ++ 32 :: (js "0.7;" ++ dq ++ js ">" ++ ring ++ js "</span>")
          = (js "<span style=" ++ dq ++ js "background-color: " ++ bg'
             ++ js "; color: " ++ fg'
             ++ js "; padding: 2px 4px; border-radius: 3px; "
             ++ js "font-weight: 600; position: relative; display:")
            ++ 32 :: (js "inline-block;" ++ dq ++ js ">" ++ token)) as H'.
  { transitivity ((spanOpenHTML bg fg ++ token) ++ partialIndicatorHTML).
    - by rewrite <- !app_assoc.
    - rewrite H. unfold spanOpenHTML. by rewrite <- !app_assoc. }
  apply last_split_unique in H'; [discriminate H' | |].
  - intros Hin. repeat (apply elem_of_cons in Hin as [?|Hin]; [done|]).
    by apply elem_of_nil in Hin.
  - intros Hin. repeat (apply elem_of_cons in Hin as [?|Hin]; [done|]).
    done.
Qed.

Lemma spanHTML_inj (bg bg' token : JSString) (p p' : bool) :
  32 ∉ token →
  spanOpenHTML bg (textColorOf bg) ++ token
  ++ (if p then partialIndicatorHTML else []) ++ spanCloseHTML
  = spanOpenHTML bg' (textColorOf bg') ++ token
    ++ (if p' then partialIndicatorHTML else []) ++ spanCloseHTML →
  bg = bg' ∧ p = p'.
Proof.
  intros Hws H.
  assert (p = p') as <-.
  { destruct p, p'; try done.
    - by apply spanHTML_indicator in H.
    - symmetry in H. by apply spanHTML_indicator in H. }
  split; [|done].
  rewrite !app_assoc in H. do 3 apply app_inv_tail in H.
  unfold spanOpenHTML in H. do 3 apply app_inv_head in H.
  apply app_inj_1 in H as [H _]; [done|].
  apply (f_equal length) in H. rewrite !length_app, !textColorOf_length in H.
  lia.
Qed.

(** ** Matching and highlighting *)

Section HighlightClaims.

Variable toLowerCase : JSString -> JSString.

(** C1 (as amended).  For every non-whitespace token of the text and
    every rule of the list, the token is highlighted by that rule if and
    only if the rule matches the token (the lowercased token equals the
    lowercased rule word, or partial matching is enabled and the
    lowercased rule word is a substring of the lowercased token) and no
    earlier rule of the list matches it.  This is what both renderers
    show.  When the rule is the first that matches, the node of
    [applyHighlights] at the position of the token is the span of that
    rule and the string of [applyHighlightsToHTML] has the span of that
    rule around the token.  When no rule matches, the node is the token
    as plain text and the string has the bare token, and only then.  The
    output names a rule by its colour; when the colours of the rules are
    distinct, the token is shown as the span of the rule, in the nodes
    and in the string alike, if and only if the rule is the first that
    matches. *)
Theorem highlighted_iff_first_match (text : JSString)
    (rules : list HighlightRule) (pm : bool) (tip : JSString)
    (i : nat) (token : JSString) (j : nat) (r : HighlightRule) :
  matchTokens text !! i = Some token →
  isWhitespaceToken token = false →
  rules !! j = Some r →
  let first :=
    Matches toLowerCase pm token r
    ∧ ∀ i' r', rules !! i' = Some r' → (i' < j)%nat →
               ¬ Matches toLowerCase pm token r' in
  let unmatched :=
    ∀ r', r' ∈ rules → ¬ Matches toLowerCase pm token r' in
  let indicator := partialOf toLowerCase token r in
  let nodes := applyHighlights toLowerCase text rules pm tip in
  let html := applyHighlightsToHTML toLowerCase text rules pm in
  let span k :=
    RSpan k (color r) (textColorOf (color r)) token
      (if indicator then Some tip else None) in
  let spanHTML :=
    spanOpenHTML (color r) (textColorOf (color r)) ++ token
    ++ (if indicator then partialIndicatorHTML else [])
    ++ spanCloseHTML in
  let around piece :=
    concat (htmlOfToken toLowerCase rules pm <$> take i (matchTokens text))
    ++ piece
    ++ concat (htmlOfToken toLowerCase rules pm
                 <$> drop (S i) (matchTokens text)) in
  (HighlightedBy toLowerCase rules pm token j ↔ first)
  ∧ (first → (∃ k, nodes !! i = Some (span k)) ∧ html = around spanHTML)
  ∧ (unmatched ↔ nodes !! i = Some (RText token))
  ∧ (unmatched ↔ html = around token)
  ∧ (NoDup (color <$> rules) →
     ((∃ k, nodes !! i = Some (span k)) ↔ first)
     ∧ (html = around spanHTML ↔ first)).
Proof.
  intros Hi Hws Hj first unmatched indicator nodes html span spanHTML around.
  assert (rules ≠ []) as Hrules by (by intros ->).
  assert (first ↔ winner toLowerCase rules pm token = Some (j, r)) as Hfirst.
  { rewrite winner_FirstMatch. unfold first, FirstMatch. tauto. }
  assert (unmatched ↔ winner toLowerCase rules pm token = None) as Hnone
    by (by rewrite winner_None).
  assert (html = around (htmlOfToken toLowerCase rules pm token)) as Hhtml
    by (by apply applyHighlightsToHTML_at).
  assert (∀ piece, html = around piece
                   ↔ htmlOfToken toLowerCase rules pm token = piece) as Hpiece.
  { intros piece. rewrite Hhtml. unfold around. split; [|by intros ->].
    intros H%app_inv_head%app_inv_tail. done. }
  assert (first → (∃ k, nodes !! i = Some (span k)) ∧ html = around spanHTML)
    as Hshown.
  { intros Hw%Hfirst.
    destruct (winner_rendered toLowerCase text rules pm tip i token j r)
      as [Hreact Hpc]; [done..|].
    split; [done|]. by apply Hpiece. }
  destruct (applyHighlights_at toLowerCase text rules pm tip i token)
    as [k Hnode]; [done..|].
  pose proof (htmlOfToken_mark toLowerCase rules pm token) as Hmark.
  fold nodes in Hnode.
  split_and!.
  - unfold HighlightedBy. rewrite Hfirst. split; [|by exists r].
    intros [r' Hw]. pose proof Hw as (Hj' & _)%winner_FirstMatch.
    by simplify_eq.
  - done.
  - rewrite Hnone. split.
    + intros Hw. by rewrite (markOf_unmatched _ _ _ _ Hw) in Hnode.
    + intros Hplain.
      destruct (winner toLowerCase rules pm token) as [[j' r']|] eqn:Hw;
        [|done].
      rewrite (markOf_winner _ _ _ _ _ _ Hws Hw) in Hnode. congruence.
  - rewrite Hnone, Hpiece. split.
    + intros Hw. rewrite Hmark, (markOf_unmatched _ _ _ _ Hw). simpl.
      by rewrite app_nil_r.
    + intros Hplain.
      destruct (winner toLowerCase rules pm token) as [[j' r']|] eqn:Hw;
        [|done].
      rewrite Hmark, (markOf_winner _ _ _ _ _ _ Hws Hw) in Hplain.
      by apply spanHTML_not_token in Hplain.
  - intros Hcolors.
    assert (∀ j' r', winner toLowerCase rules pm token = Some (j', r') →
                     color r' = color r → first) as Hsame.
    { intros j' r' Hw Hc. apply Hfirst.
      pose proof Hw as (Hj' & _)%winner_FirstMatch.
      assert (j' = j) as ->; [|by simplify_eq].
      apply (NoDup_lookup _ _ _ (color r) Hcolors);
        rewrite list_lookup_fmap;
        [rewrite Hj'; simpl; by rewrite Hc | by rewrite Hj]. }
    split; (split; [|intros Hf; by destruct (Hshown Hf)]).
    + intros [k' Hspan].
      destruct (winner toLowerCase rules pm token) as [[j' r']|] eqn:Hw.
      * rewrite (markOf_winner _ _ _ _ _ _ Hws Hw) in Hnode.
        apply (Hsame j' r'); [done|]. unfold span in Hspan.
        rewrite Hnode in Hspan. by injection Hspan.
      * rewrite (markOf_unmatched _ _ _ _ Hw) in Hnode.
        rewrite Hnode in Hspan. discriminate Hspan.
    + intros Hspan%Hpiece.
      destruct (winner toLowerCase rules pm token) as [[j' r']|] eqn:Hw.
      * rewrite Hmark, (markOf_winner _ _ _ _ _ _ Hws Hw) in Hspan.
        cbn [markupBefore markupAfter] in Hspan.
        rewrite <- ?app_assoc in Hspan.
        apply spanHTML_inj in Hspan as [Hc _];
          [by apply (Hsame j' r') |].
        by eapply token_no_space.
      * rewrite Hmark, (markOf_unmatched _ _ _ _ Hw) in Hspan.
        cbn [markupBefore markupAfter] in Hspan.
        rewrite app_nil_l, app_nil_r in Hspan. symmetry in Hspan.
        by apply spanHTML_not_token in Hspan.
Qed.

(** C2.  Both renderers show one and the same marking of the tokens of
    the text: each token of [matchTokens text] with the mark [markOf]
    gives it, that is, whether it is highlighted, by which rule and
    whether as a partial match.  [applyHighlightsToHTML] concatenates the
    marked tokens with the span markup; [applyHighlights] returns them as
    nodes, or the text as its single node when there are no rules or no
    tokens; and the HTML string is the serialization of those nodes. *)
Theorem renderers_agree (text : JSString) (rules : list HighlightRule)
    (pm : bool) (tip : JSString) :
  let marked :=
    (λ t, (t, markOf toLowerCase rules pm t)) <$> matchTokens text in
  applyHighlightsToHTML toLowerCase text rules pm
  = concat ((λ tm : JSString * Mark,
               markupBefore tm.2 ++ tm.1 ++ markupAfter tm.2) <$> marked)
  ∧ applyHighlights toLowerCase text rules pm tip
    = (if bool_decide (rules = [] ∨ text = []) then [RText text]
       else reactOfMarks tip 0 marked)
  ∧ applyHighlightsToHTML toLowerCase text rules pm
    = concat (nodeHTML <$> applyHighlights toLowerCase text rules pm tip).
Proof.
  intros marked.
  assert (Hhtml : applyHighlightsToHTML toLowerCase text rules pm
    = concat ((λ tm : JSString * Mark,
                 markupBefore tm.2 ++ tm.1 ++ markupAfter tm.2) <$> marked)).
  { rewrite applyHighlightsToHTML_marks. unfold marked.
    by rewrite <- list_fmap_compose. }
  assert (Hreact : applyHighlights toLowerCase text rules pm tip
    = (if bool_decide (rules = [] ∨ text = []) then [RText text]
       else reactOfMarks tip 0 marked)).
  { case_bool_decide as Hd.
    - destruct Hd as [-> | ->]; [done|].
      unfold applyHighlights. by destruct rules.
    - apply applyHighlights_marks; tauto. }
  split_and!; [done | done |].
  rewrite Hreact. case_bool_decide as Hd.
  - simpl. rewrite app_nil_r. destruct Hd as [-> | ->]; [done|].
    unfold applyHighlightsToHTML. by destruct rules.
  - by rewrite nodeHTML_reactOfMarks.
Qed.

(** C3.  A token is highlighted by the first rule of the list that
    matches it, whatever the later rules are and whether the match is
    exact or partial: the node of [applyHighlights] at the position of
    the token and the piece of [applyHighlightsToHTML] for it are the
    span of that rule.  Every token gives exactly one node and one piece
    of the HTML string, either the token itself or the token inside one
    span. *)
Theorem first_rule_wins (text : JSString) (rules : list HighlightRule)
    (pm : bool) (tip : JSString) (i : nat) (token : JSString)
    (j : nat) (r : HighlightRule) :
  matchTokens text !! i = Some token →
  isWhitespaceToken token = false →
  FirstMatch toLowerCase pm token rules j r →
  (∃ k, applyHighlights toLowerCase text rules pm tip !! i
        = Some (RSpan k (color r) (textColorOf (color r)) token
                  (if partialOf toLowerCase token r then Some tip else None)))
  ∧ htmlOfToken toLowerCase rules pm token
    = spanOpenHTML (color r) (textColorOf (color r)) ++ token
      ++ (if partialOf toLowerCase token r then partialIndicatorHTML else [])
      ++ spanCloseHTML
  ∧ Forall2 (λ t node, node = RText t
                       ∨ ∃ k bg fg ind, node = RSpan k bg fg t ind)
      (matchTokens text) (applyHighlights toLowerCase text rules pm tip)
  ∧ applyHighlightsToHTML toLowerCase text rules pm
    = concat (htmlOfToken toLowerCase rules pm <$> matchTokens text)
  ∧ Forall2 (λ t piece, piece = t
                        ∨ ∃ bg fg ind,
                            piece
                            = spanOpenHTML bg fg ++ t ++ ind ++ spanCloseHTML
                            ∧ (ind = [] ∨ ind = partialIndicatorHTML))
      (matchTokens text)
      (htmlOfToken toLowerCase rules pm <$> matchTokens text).
Proof.
  intros Hi Hws Hfirst. pose proof Hfirst as (Hj & _ & _).
  apply winner_FirstMatch in Hfirst as Hw.
  assert (rules ≠ []) as Hrules by (by intros ->).
  assert (text ≠ []) as Htext by (by intros ->).
  destruct (winner_rendered toLowerCase text rules pm tip i token j r)
    as [Hreact Hhtml]; [done..|].
  split_and!; [done | done | | |].
  - rewrite applyHighlights_marks by done. apply reactOfMarks_one_node.
  - apply applyHighlightsToHTML_tokens.
  - apply Forall2_fmap_r, Forall_Forall2_diag, Forall_forall.
    intros t _. apply htmlOfToken_one_span.
Qed.

(** C4.  The tokens of a text are its maximal runs of whitespace and of
    non-whitespace and concatenate to the text.  A whitespace token and a
    token that no rule matches are emitted unchanged.  The string of
    [applyHighlightsToHTML] is the tokens in order, each between the
    markup inserted for it, so that without the markup it is the text;
    with no rules it is the text. *)
Theorem whitespace_fidelity (text : JSString) (rules : list HighlightRule)
    (pm : bool) :
  let pieces :=
    (λ t, (markupBefore (markOf toLowerCase rules pm t), t,
           markupAfter (markOf toLowerCase rules pm t))) <$> matchTokens text in
  concat (matchTokens text) = text
  ∧ Forall IsRun (matchTokens text)
  ∧ Alternating (matchTokens text)
  ∧ (∀ token,
       isWhitespaceToken token = true
       ∨ winner toLowerCase rules pm token = None →
       htmlOfToken toLowerCase rules pm token = token)
  ∧ applyHighlightsToHTML toLowerCase text rules pm
    = concat ((λ p : JSString * JSString * JSString,
                 p.1.1 ++ p.1.2 ++ p.2) <$> pieces)
  ∧ concat ((λ p : JSString * JSString * JSString, p.1.2) <$> pieces) = text
  ∧ applyHighlightsToHTML toLowerCase text [] pm = text.
Proof.
  intros pieces. split_and!.
  - apply matchTokens_concat.
  - apply matchFrom_runs.
  - apply matchFrom_alternating.
  - intros token H. rewrite htmlOfToken_mark.
    assert (markOf toLowerCase rules pm token = Plain) as ->.
    { destruct H; [by apply markOf_whitespace | by apply markOf_unmatched]. }
    simpl. by rewrite app_nil_r.
  - rewrite applyHighlightsToHTML_marks. unfold pieces.
    by rewrite <- list_fmap_compose.
  - unfold pieces. rewrite <- list_fmap_compose.
    rewrite <- (matchTokens_concat text) at 2. f_equal.
    rewrite <- (list_fmap_id (matchTokens text)) at 2.
    by apply list_fmap_ext.
  - done.
Qed.


(** C8 (as amended).  Let the rule list contain a rule whose word is
    empty and let partial matching be enabled; [toLowerCase] takes the
    empty string to itself.  Then every non-whitespace token of every
    text is highlighted, by the first rule of the list that matches it.
    It is highlighted as a partial match exactly when the lowercased word
    of that rule differs from the lowercased token, and so whenever no
    rule of the list has a lowercased word equal to the lowercased token.
    [addHighlightRule] stores the trimmed word, which is empty for an
    input of whitespace only. *)
Theorem empty_word_rule_highlights_all (text : JSString)
    (rules : list HighlightRule) (tip : JSString) (j0 : nat)
    (r0 : HighlightRule) (i : nat) (token : JSString) :
  toLowerCase [] = [] →
  rules !! j0 = Some r0 →
  word r0 = [] →
  matchTokens text !! i = Some token →
  isWhitespaceToken token = false →
  (∃ j r,
     FirstMatch toLowerCase true token rules j r
     ∧ (∃ k, applyHighlights toLowerCase text rules true tip !! i
             = Some (RSpan k (color r) (textColorOf (color r)) token
                       (if partialOf toLowerCase token r then Some tip
                        else None)))
     ∧ htmlOfToken toLowerCase rules true token
       = spanOpenHTML (color r) (textColorOf (color r)) ++ token
         ++ (if partialOf toLowerCase token r then partialIndicatorHTML else [])
         ++ spanCloseHTML
     ∧ (partialOf toLowerCase token r = true
        ↔ toLowerCase token ≠ toLowerCase (word r))
     ∧ ((∀ r', r' ∈ rules →
               toLowerCase token ≠ toLowerCase (word r')) →
        partialOf toLowerCase token r = true))
  ∧ (∀ w c now st,
       forallb isWhiteSpace w = true →
       highlightRules (addHighlightRule w c now st).1
       = highlightRules st.1 ++ [mkRule now [] c]).
Proof.
  intros Hnil Hj0 Hw0 Hi Hws. split.
  - assert (Matches toLowerCase true token r0) as Hm0.
    { right. split; [done|]. rewrite Hw0, Hnil.
      exists [], (toLowerCase token). done. }
    destruct (winner toLowerCase rules true token) as [[j r]|] eqn:Hw.
    2:{ exfalso. eapply winner_None; [exact Hw | | exact Hm0].
        by eapply list_elem_of_lookup_2. }
    pose proof Hw as Hfirst%winner_FirstMatch.
    exists j, r.
    destruct (winner_rendered toLowerCase text rules true tip i token j r)
      as [Hreact Hhtml]; [done..|].
    assert (partialOf toLowerCase token r = true
            ↔ toLowerCase token ≠ toLowerCase (word r)) as Hpartial.
    { unfold partialOf. rewrite negb_true_iff. apply strictEq_false. }
    split_and!; try done.
    intros Hnone. apply Hpartial, Hnone.
    destruct Hfirst as (Hj & _). by eapply list_elem_of_lookup_2.
  - intros w c now st Hall. unfold addHighlightRule. simpl.
    by rewrite (trim_whitespace w Hall).
Qed.

End HighlightClaims.

(** *** Concrete runs

    The runs below use [asciiLower], which is [toLowerCase] on ASCII
    text. *)

Example isWhiteSpace_ex :
  isWhiteSpace <$> [9; 10; 13; 32; 160; 0x2003; 0xFEFF; 65; 0x200B]
  = [true; true; true; true; true; true; true; false; false].
Proof. reflexivity. Qed.

Example matchTokens_ex :
  matchTokens (js "ab  c ") = [js "ab"; js "  "; js "c"; js " "]
  ∧ matchTokens (js "one" ++ [9; 10] ++ js "two") = [js "one"; [9; 10]; js "two"]
  ∧ matchTokens [] = [].
Proof. by vm_compute. Qed.

Example includes_ex :
  includes (js "running") (js "run") = true
  ∧ includes (js "importance") (js "important") = false
  ∧ includes (js "run") [] = true.
Proof. by vm_compute. Qed.

Example trim_ex : trim (js "  two words ") = js "two words" ∧ trim (js "  ") = [].
Proof. by vm_compute. Qed.

Example applyHighlightsToHTML_ex :
  applyHighlightsToHTML asciiLower (js "a Test")
    [mkRule (js "1") (js "test") yellow] true
  = js "a " ++ spanOpenHTML yellow black ++ js "Test" ++ spanCloseHTML.
Proof. vm_compute. reflexivity. Qed.

Example applyHighlights_ex :
  applyHighlights asciiLower (js "important and Importantly")
    [mkRule (js "1") (js "important") green] true (js "Partial match")
  = [ RSpan 0 green white (js "important") None;
      RText (js " "); RText (js "and"); RText (js " ");
      RSpan 1 green white (js "Importantly") (Some (js "Partial match")) ].
Proof. vm_compute. reflexivity. Qed.

(** An earlier rule that matches only partially wins over a later rule
    that matches exactly. *)
Example partial_before_exact :
  applyHighlights asciiLower (js "running")
    [mkRule (js "1") (js "run") yellow; mkRule (js "2") (js "running") green]
    true (js "Partial match")
  = [RSpan 0 yellow black (js "running") (Some (js "Partial match"))].
Proof. vm_compute. reflexivity. Qed.

(** C1, as stated, fails on a token that two rules match: the token
    [foo] is highlighted by the first rule, in yellow, by both
    renderers; the second rule matches it exactly and does not highlight
    it. *)
Lemma later_matching_rule_does_not_highlight :
  let rules := [mkRule (js "1") (js "foo") yellow;
                mkRule (js "2") (js "foo") green] in
  applyHighlights asciiLower (js "foo") rules true (js "Partial match")
  = [RSpan 0 yellow black (js "foo") None]
  ∧ applyHighlightsToHTML asciiLower (js "foo") rules true
    = spanOpenHTML yellow black ++ js "foo" ++ spanCloseHTML
  ∧ ¬ (∀ i token j r,
         matchTokens (js "foo") !! i = Some token →
         isWhitespaceToken token = false →
         rules !! j = Some r →
         (HighlightedBy asciiLower rules true token j
          ↔ Matches asciiLower true token r)).
Proof.
  intros rules. split_and!; [by vm_compute | by vm_compute |].
  intros H.
  destruct (H 0%nat (js "foo") 1%nat (mkRule (js "2") (js "foo") green)
              eq_refl eq_refl eq_refl) as [_ Hback].
  destruct Hback as [r Hw]; [by left|].
  vm_compute in Hw. discriminate Hw.
Qed.

Lemma highlighted_iff_first_match_witness :
  let rules := [mkRule (js "1") (js "foo") yellow;
                mkRule (js "2") (js "foo") green] in
  let second := mkRule (js "2") (js "foo") green in
  let first :=
    Matches asciiLower true (js "foo") second
    ∧ ∀ i' r', rules !! i' = Some r' → (i' < 1)%nat →
               ¬ Matches asciiLower true (js "foo") r' in
  (HighlightedBy asciiLower rules true (js "foo") 1 ↔ first)
  ∧ ((∃ k, applyHighlights asciiLower (js "foo") rules true
             (js "Partial match") !! 0%nat
           = Some (RSpan k green white (js "foo") None))
     ↔ first).
Proof.
  intros rules second first.
  pose proof (highlighted_iff_first_match asciiLower (js "foo") rules true
                (js "Partial match") 0 (js "foo") 1 second
                eq_refl eq_refl eq_refl) as (H1 & _ & _ & _ & H5).
  split; [exact H1|].
  refine (proj1 (H5 _)).
  apply (bool_decide_unpack _). vm_compute. exact I.
Defined.

Lemma first_rule_wins_witness :
  let rules := [mkRule (js "1") (js "run") yellow;
                mkRule (js "2") (js "running") green] in
  htmlOfToken asciiLower rules true (js "running")
  = spanOpenHTML yellow black ++ js "running" ++ partialIndicatorHTML
    ++ spanCloseHTML.
Proof.
  intros rules.
  refine (proj1 (proj2 (first_rule_wins asciiLower (js "a running") rules
           true (js "Partial match") 2 (js "running") 0
           (mkRule (js "1") (js "run") yellow) _ _ _))).
  - reflexivity.
  - reflexivity.
  - apply winner_FirstMatch. vm_compute. reflexivity.
Defined.

Lemma whitespace_fidelity_witness :
  htmlOfToken asciiLower [mkRule (js "1") (js "run") yellow] true (js "  ")
  = js "  ".
Proof.
  refine (proj1 (proj2 (proj2 (proj2
    (whitespace_fidelity asciiLower (js "a  b")
       [mkRule (js "1") (js "run") yellow] true)))) (js "  ") _).
  left. reflexivity.
Defined.


(** C8, as stated, fails when a rule before the one with the empty word
    matches the token exactly: [foo] is highlighted without the
    indicator. *)
Lemma exact_rule_before_empty_word :
  let rules := [mkRule (js "1") (js "foo") yellow; mkRule (js "2") [] green] in
  applyHighlights asciiLower (js "foo") rules true (js "Partial match")
  = [RSpan 0 yellow black (js "foo") None]
  ∧ applyHighlightsToHTML asciiLower (js "foo") rules true
    = spanOpenHTML yellow black ++ js "foo" ++ spanCloseHTML
  ∧ ¬ (∀ i token,
         matchTokens (js "foo") !! i = Some token →
         isWhitespaceToken token = false →
         ∃ k bg fg,
           applyHighlights asciiLower (js "foo") rules true
             (js "Partial match") !! i
           = Some (RSpan k bg fg token (Some (js "Partial match")))).
Proof.
  intros rules. split_and!; [by vm_compute | by vm_compute |].
  intros H. destruct (H 0%nat (js "foo") eq_refl eq_refl) as (k & bg & fg & Hk).
  vm_compute in Hk. discriminate Hk.
Qed.

Lemma empty_word_rule_highlights_all_witness :
  let rules := [mkRule (js "1") [] green] in
  ∃ j r,
    FirstMatch asciiLower true (js "foo") rules j r
    ∧ partialOf asciiLower (js "foo") r = true.
Proof.
  intros rules.
  destruct (empty_word_rule_highlights_all asciiLower (js "a foo") rules
              (js "tip") 0 (mkRule (js "1") [] green) 2 (js "foo")
              eq_refl eq_refl eq_refl eq_refl eq_refl)
    as [(j & r & Hfirst & _ & _ & Hp & _) _].
  exists j, r. split; [exact Hfirst|].
  apply Hp. destruct Hfirst as (Hj & _).
  destruct j as [|[|j]]; [|discriminate Hj..].
  injection Hj as <-. vm_compute. discriminate.
Defined.

(** ** CSV and PDF export *)

Lemma join_cons (sep x : JSString) (l : list JSString) :
  join sep (x :: l) = x ++ concat ((λ y, sep ++ y) <$> l).
Proof.
  revert x; induction l as [|y l IH]; intros x.
  - simpl. by rewrite app_nil_r.
  - change (join sep (x :: y :: l)) with (x ++ sep ++ join sep (y :: l)).
    rewrite IH. simpl. by rewrite <- app_assoc.
Qed.

Lemma escapeQuotes_doubled (s : JSString) : escapeQuotes s = doubled s.
Proof.
  unfold doubled. induction s as [|c s IH]; [done|].
  simpl. rewrite IH. f_equal.
  destruct (N.eqb_spec c 34) as [->|Hc]; [done|].
  by rewrite decide_False.
Qed.

(** C6.  The content of the CSV file is the byte-order mark, the header
    line [Timestamp,Text] and then, for each transcript item in list
    order, a line feed followed by the timestamp, a comma and the text
    between double quotes with every double quote of the text doubled. *)
Theorem csv_content_layout (transcripts : list TranscriptItem)
    (filename isoNow : JSString) :
  blobContent (exportAsCSV transcripts filename isoNow)
  = [0xFEFF] ++ js "Timestamp,Text"
    ++ concat ((λ item,
                  [10] ++ timestamp item ++ js "," ++ dq
                  ++ doubled (text item) ++ dq) <$> transcripts).
Proof.
  unfold exportAsCSV, csvContent, csvRows. cbn [blobContent].
  rewrite join_cons.
  change (join (js ",") [js "Timestamp"; js "Text"]) with (js "Timestamp,Text").
  do 3 f_equal.
  rewrite <- !list_fmap_compose. apply list_fmap_ext. intros _ item _.
  simpl. by rewrite escapeQuotes_doubled, <- ?app_assoc.
Qed.

Example exportAsCSV_ex :
  blobContent
    (exportAsCSV [mkItem (js "14.30.45") (js "say " ++ dq ++ js "hi" ++ dq)]
       (js "transcripts") (js "2025-11-30T12:00:00.000Z"))
  = [0xFEFF] ++ js "Timestamp,Text" ++ [10] ++ js "14.30.45," ++ dq
    ++ js "say " ++ dq ++ dq ++ js "hi" ++ dq ++ dq ++ dq
  ∧ downloadName
      (exportAsCSV [] (js "transcripts") (js "2025-11-30T12:00:00.000Z"))
    = js "transcripts_2025-11-30.csv".
Proof. split; vm_compute; reflexivity. Qed.

(** C10.  [exportAsPDF] returns [false] exactly when [window.open] gave
    no window, and then it has done nothing; otherwise it returns [true],
    after writing the document, closing it and installing the [onload]
    handler. *)
Theorem exportAsPDF_result (toLowerCase : JSString → JSString)
    (printWindow : option unit) (transcripts : list TranscriptItem)
    (title confirmedTitle dateLabel totalLabel : JSString)
    (rules : list HighlightRule) (pm : bool) (currentDate : JSString)
    (now : LocalTime) :
  let result :=
    exportAsPDF toLowerCase printWindow transcripts title confirmedTitle
      dateLabel totalLabel rules pm currentDate now in
  (result.1 = false ↔ printWindow = None)
  ∧ (printWindow = None → result.2 = [])
  ∧ (printWindow ≠ None →
     result.1 = true
     ∧ ∃ html, result.2 = [DocumentWrite html; DocumentClose; SetOnload]).
Proof.
  destruct printWindow as [w|]; simpl.
  - split_and!; [done | done |]. intros _. split; [done|]. by eexists.
  - split_and!; done.
Qed.

Example exportAsPDF_ex :
  ∃ html,
    exportAsPDF asciiLower (Some ()) [mkItem (js "14.30.45") (js "hello")]
      (js "comLedger") (js "Confirmed Transcripts") (js "Date")
      (js "Total Transcripts") [] true (js "30 November 2025")
      (mkLocalTime 2025 10 30 14 3 5)
    = (true, [DocumentWrite html; DocumentClose; SetOnload])
    ∧ Substring (js "<title>comLedger_2025-11-30_14-03-05</title>") html
    ∧ Substring (js "Total Transcripts:</strong> 1") html.
Proof.
  eexists. split; [reflexivity|].
  split; apply includes_spec; by vm_compute.
Qed.

Lemma exportAsPDF_result_witness :
  (exportAsPDF asciiLower None [mkItem (js "14.30.45") (js "hello")]
     (js "comLedger") (js "Confirmed Transcripts") (js "Date")
     (js "Total Transcripts") [] true (js "30 November 2025")
     (mkLocalTime 2025 10 30 14 30 45)).2 = [].
Proof.
  refine (proj1 (proj2 (exportAsPDF_result asciiLower None
    [mkItem (js "14.30.45") (js "hello")]
    (js "comLedger") (js "Confirmed Transcripts") (js "Date")
    (js "Total Transcripts") [] true (js "30 November 2025")
    (mkLocalTime 2025 10 30 14 30 45))) _).
  reflexivity.
Defined.

(** ** The confirmed transcripts *)

Lemma existsb_text_false (txt : JSString) (prev : list Transcript) :
  existsb (λ t, strictEq (entryText t) txt) prev = false →
  txt ∉ entryText <$> prev.
Proof.
  induction prev as [|t prev IH]; simpl; [intros _; apply not_elem_of_nil|].
  intros [Ht Hprev]%orb_false_iff. apply strictEq_false in Ht.
  apply not_elem_of_cons. split; [done | auto].
Qed.

Lemma existsb_text_true (txt : JSString) (prev : list Transcript) :
  (∃ t, t ∈ prev ∧ entryText t = txt) →
  existsb (λ t, strictEq (entryText t) txt) prev = true.
Proof.
  intros (t & Ht & Htxt). apply existsb_exists. exists t.
  split; [by apply list_elem_of_In | by apply strictEq_true].
Qed.

Lemma appendUnlessSaved_NoDup (entry : Transcript) (prev : list Transcript) :
  NoDup (entryText <$> prev) →
  NoDup (entryText <$> appendUnlessSaved entry prev).
Proof.
  intros Hprev. unfold appendUnlessSaved.
  destruct (existsb _ prev) eqn:He; [done|].
  rewrite fmap_app. apply NoDup_app.
  split_and!; [done | | apply NoDup_singleton].
  intros txt Hin ->%list_elem_of_singleton.
  by apply existsb_text_false in He.
Qed.

Lemma handle_NoDup (p : PageState) (e : PageEvent) :
  NoDup (entryText <$> transcriptsWithTimestamps p) →
  NoDup (entryText <$> transcriptsWithTimestamps (handle p e)).
Proof.
  intros Hp. destruct e as [i ts | t | t i ts | c]; simpl.
  - unfold onDisconnect. destruct (_ && _); [|done].
    by apply appendUnlessSaved_NoDup.
  - done.
  - by apply appendUnlessSaved_NoDup.
  - unfold handleClearTranscripts. destruct c; [apply NoDup_nil_2 | done].
Qed.

(** C9.  In every reachable state of the page the texts of the confirmed
    transcripts are pairwise distinct.  The updater shared by the
    committed-transcript handler and the save on disconnect returns the
    list it was given when an entry with the text exists, and a confirmed
    clear leaves the list empty. *)
Theorem transcript_texts_distinct (p : PageState) :
  reachable p →
  NoDup (entryText <$> transcriptsWithTimestamps p)
  ∧ (∀ entry,
       (∃ t, t ∈ transcriptsWithTimestamps p
             ∧ entryText t = entryText entry) →
       appendUnlessSaved entry (transcriptsWithTimestamps p)
       = transcriptsWithTimestamps p)
  ∧ transcriptsWithTimestamps (handleClearTranscripts true p) = [].
Proof.
  intros Hp. split_and!.
  - induction Hp as [|p e Hp IH]; [apply NoDup_nil_2 | by apply handle_NoDup].
  - intros entry Hex. unfold appendUnlessSaved.
    by rewrite (existsb_text_true _ _ Hex).
  - done.
Qed.

Example duplicate_commit_ignored :
  transcriptsWithTimestamps
    (handle
       (handle
          (handle initialPage
             (CommittedTranscript (js "hello") (js "1") (js "14.30.45")))
          (PartialTranscript (js "hello")))
       (Disconnect (js "2") (js "14.30.50")))
  = [mkTranscript (js "1") (js "hello") (js "14.30.45")].
Proof. vm_compute. reflexivity. Qed.

Lemma transcript_texts_distinct_witness :
  NoDup
    (entryText <$> transcriptsWithTimestamps
       (handle
          (handle initialPage
             (CommittedTranscript (js "hello") (js "1") (js "14.30.45")))
          (CommittedTranscript (js "hello") (js "2") (js "14.30.50")))).
Proof.
  refine (proj1 (transcript_texts_distinct _ _)).
  apply reachable_step, reachable_step, reachable_init.
Defined.

(** ** Settings and local storage *)

Lemma hexValue_hexDigit (d : N) :
  d < 16 → JSON.hexValue (JSON.hexDigit d) = Some d.
Proof.
  intros Hd. unfold JSON.hexValue, JSON.hexDigit.
  destruct (N.ltb_spec d 10) as [Hlt|Hge].
  - rewrite (proj2 (N.leb_le 48 (48 + d))), (proj2 (N.leb_le (48 + d) 57))
      by lia.
    simpl. f_equal. lia.
  - rewrite (proj2 (N.leb_gt (87 + d) 57)) by lia. rewrite andb_false_r.
    rewrite (proj2 (N.leb_le 97 (87 + d))), (proj2 (N.leb_le (87 + d) 102))
      by lia.
    simpl. f_equal. lia.
Qed.

Lemma parseStringBody_unicode (h1 h2 h3 h4 : N) (s : JSString) :
  JSON.parseStringBody (92 :: 117 :: h1 :: h2 :: h3 :: h4 :: s)
  = match JSON.hexValue h1, JSON.hexValue h2, JSON.hexValue h3,
          JSON.hexValue h4 with
    | Some a, Some b, Some c, Some d =>
        '(str, rest) ← JSON.parseStringBody s;
        Some ((((a * 16 + b) * 16 + c) * 16 + d) :: str, rest)
    | _, _, _, _ => None
    end.
Proof. reflexivity. Qed.

Lemma hex_digits_value (c : N) :
  c < 65536 →
  ((c / 4096 mod 16 * 16 + c / 256 mod 16) * 16 + c / 16 mod 16) * 16
  + c mod 16 = c.
Proof. intros Hc. zify. Z.to_euclidean_division_equations. lia. Qed.

Lemma parse_unicodeEscape (c : N) (tail : JSString) :
  c < 65536 →
  JSON.parseStringBody (JSON.unicodeEscape c ++ tail)
  = '(str, rest) ← JSON.parseStringBody tail; Some (c :: str, rest).
Proof.
  intros Hc. unfold JSON.unicodeEscape. cbn [app].
  rewrite parseStringBody_unicode.
  rewrite !hexValue_hexDigit by (apply N.mod_lt; lia).
  by rewrite hex_digits_value.
Qed.

Lemma parse_quoteUnit (c : N) (lone : bool) (tail : JSString) :
  (lone = true → c < 65536) →
  JSON.parseStringBody (JSON.quoteUnit c lone ++ tail)
  = '(str, rest) ← JSON.parseStringBody tail; Some (c :: str, rest).
Proof.
  intros Hlone. unfold JSON.quoteUnit.
  destruct (N.eqb_spec c 8) as [->|H8]; [done|].
  destruct (N.eqb_spec c 9) as [->|H9]; [done|].
  destruct (N.eqb_spec c 10) as [->|H10]; [done|].
  destruct (N.eqb_spec c 12) as [->|H12]; [done|].
  destruct (N.eqb_spec c 13) as [->|H13]; [done|].
  destruct (N.eqb_spec c 34) as [->|H34]; [done|].
  destruct (N.eqb_spec c 92) as [->|H92]; [done|].
  destruct (N.ltb_spec c 32) as [Hlt|Hge]; simpl orb.
  - apply parse_unicodeEscape. lia.
  - destruct lone.
    + apply parse_unicodeEscape. auto.
    + cbn [app JSON.parseStringBody].
      rewrite (proj2 (N.eqb_neq c 34)), (proj2 (N.eqb_neq c 92)) by done.
      by rewrite (proj2 (N.ltb_ge c 32)).
Qed.

Lemma surrogate_bound (c : N) :
  JSON.isHighSurrogate c || JSON.isLowSurrogate c = true → c < 65536.
Proof.
  unfold JSON.isHighSurrogate, JSON.isLowSurrogate.
  intros [[_ H]%andb_true_iff | [_ H]%andb_true_iff]%orb_true_iff;
    apply N.leb_le in H; lia.
Qed.

Lemma parse_quoteFrom (s : JSString) (prevHigh : bool) (rest : JSString) :
  JSON.parseStringBody (JSON.quoteFrom prevHigh s ++ dq ++ rest)
  = Some (s, rest).
Proof.
  revert prevHigh; induction s as [|c s IH]; intros prevHigh; [done|].
  cbn [JSON.quoteFrom]. rewrite <- app_assoc.
  rewrite parse_quoteUnit.
  - by rewrite IH.
  - intros Hl. apply surrogate_bound.
    destruct (JSON.isHighSurrogate c), (JSON.isLowSurrogate c); done.
Qed.

Lemma expect_app (lit rest : JSString) :
  JSON.expect lit (lit ++ rest) = Some rest.
Proof.
  unfold JSON.expect.
  rewrite (proj2 (startsWith_spec (lit ++ rest) lit)) by eauto.
  by rewrite drop_app_length.
Qed.

Lemma parseString_quote (v rest : JSString) :
  JSON.parseString (JSON.quote v ++ rest) = Some (v, rest).
Proof.
  unfold JSON.parseString, JSON.quote. rewrite <- !app_assoc.
  rewrite expect_app. cbn [mbind option_bind]. apply parse_quoteFrom.
Qed.

Lemma parseMember_member (key : string) (v rest : JSString) :
  JSON.parseMember key (JSON.member key v ++ rest) = Some (v, rest).
Proof.
  unfold JSON.parseMember, JSON.member.
  replace ((dq ++ js key ++ dq ++ js ":" ++ JSON.quote v) ++ rest)
    with ((dq ++ js key ++ dq ++ js ":") ++ JSON.quote v ++ rest)
    by (by rewrite <- !app_assoc).
  rewrite expect_app. cbn [mbind option_bind]. apply parseString_quote.
Qed.

Lemma parseRule_stringifyRule (r : HighlightRule) (rest : JSString) :
  JSON.parseRule (JSON.stringifyRule r ++ rest) = Some (r, rest).
Proof.
  unfold JSON.parseRule, JSON.stringifyRule. cbn [join].
  rewrite <- !app_assoc.
  rewrite expect_app. cbn [mbind option_bind].
  rewrite parseMember_member. cbn [mbind option_bind].
  rewrite expect_app. cbn [mbind option_bind].
  rewrite parseMember_member. cbn [mbind option_bind].
  rewrite expect_app. cbn [mbind option_bind].
  rewrite parseMember_member. cbn [mbind option_bind].
  rewrite expect_app. cbn [mbind option_bind].
  by destruct r.
Qed.

Lemma stringifyRule_not_close (r : HighlightRule) (rest : JSString) :
  strictEq (JSON.stringifyRule r ++ rest) (js "]") = false.
Proof. apply strictEq_false. discriminate. Qed.

Lemma parseElements_join (rs : list HighlightRule) (r : HighlightRule)
    (n : nat) :
  (length rs < n)%nat →
  JSON.parseElements n
    (join (js ",") (JSON.stringifyRule <$> r :: rs) ++ js "]")
  = Some (r :: rs).
Proof.
  revert r n; induction rs as [|r' rs IH]; intros r [|n] Hn; simpl in Hn;
    try lia.
  - cbn [fmap list_fmap join JSON.parseElements].
    rewrite parseRule_stringifyRule. done.
  - change (JSON.stringifyRule <$> r :: r' :: rs)
      with (JSON.stringifyRule r :: (JSON.stringifyRule <$> r' :: rs)).
    change (join (js ",")
              (JSON.stringifyRule r :: (JSON.stringifyRule <$> r' :: rs)))
      with (JSON.stringifyRule r ++ js ","
            ++ join (js ",") (JSON.stringifyRule <$> r' :: rs)).
    cbn [JSON.parseElements]. rewrite <- !app_assoc.
    rewrite parseRule_stringifyRule. cbn [mbind option_bind].
    assert (strictEq
              (js ","
               ++ join (js ",") (JSON.stringifyRule <$> r' :: rs) ++ js "]")
              (js "]") = false) as ->.
    { apply strictEq_false. discriminate. }
    rewrite expect_app. cbn [mbind option_bind].
    rewrite IH by lia. done.
Qed.

Lemma join_length (sep x : JSString) (l : list JSString) :
  sep ≠ [] → (length l ≤ length (join sep (x :: l)))%nat.
Proof.
  intros Hsep. rewrite join_cons, length_app.
  assert (1 ≤ length sep)%nat as Hlen by (destruct sep; simpl; [done | lia]).
  assert (length l ≤ length (concat ((λ y, sep ++ y) <$> l)))%nat; [|lia].
  induction l as [|y l IH]; [simpl; lia|].
  rewrite fmap_cons, concat_cons, !length_app. simpl. lia.
Qed.

(** Parsing the JSON text of a rule list gives the list back. *)
Lemma parse_stringify (rules : list HighlightRule) :
  JSON.parse (JSON.stringify rules) = Some rules.
Proof.
  unfold JSON.parse, JSON.stringify. rewrite expect_app.
  cbn [mbind option_bind]. destruct rules as [|r rs]; [done|].
  change (JSON.stringifyRule <$> r :: rs)
    with (JSON.stringifyRule r :: (JSON.stringifyRule <$> rs)).
  assert (strictEq
            (join (js ",") (JSON.stringifyRule r :: (JSON.stringifyRule <$> rs))
             ++ js "]") (js "]") = false) as ->.
  { rewrite join_cons, <- app_assoc. apply stringifyRule_not_close. }
  apply parseElements_join. rewrite length_app.
  pose proof (join_length (js ",") (JSON.stringifyRule r)
                (JSON.stringifyRule <$> rs)) as Hlen.
  rewrite length_fmap in Hlen. specialize (Hlen ltac:(done)).
  change (length (js "]")) with 1%nat. lia.
Qed.

Example stringify_ex :
  JSON.stringify [mkRule (js "17") (js "a\b") (js "#FFEB3B")]
  = js "[{" ++ dq ++ js "id" ++ dq ++ js ":" ++ dq ++ js "17" ++ dq
    ++ js "," ++ dq ++ js "word" ++ dq ++ js ":" ++ dq ++ js "a\\b" ++ dq
    ++ js "," ++ dq ++ js "color" ++ dq ++ js ":" ++ dq ++ js "#FFEB3B" ++ dq
    ++ js "}]".
Proof. vm_compute. reflexivity. Qed.

(** A loader leaves alone what its setter leaves alone. *)
Lemma loadBool_get {A} (get : Settings → A) (key : string)
    (set : bool → Settings → Settings) (ls : Storage) (s : Settings) :
  (∀ v s', get (set v s') = get s') → get (loadBool key set ls s) = get s.
Proof. intros Hset. unfold loadBool. by destruct (ls !! key). Qed.

Lemma loadString_get {A} (get : Settings → A) (key : string)
    (set : JSString → Settings → Settings) (ls : Storage) (s : Settings) :
  (∀ v s', get (set v s') = get s') → get (loadString key set ls s) = get s.
Proof.
  intros Hset. unfold loadString.
  destruct (ls !! key) as [v|]; [|done]. by destruct (truthy v).
Qed.

Lemma loadLanguage_get {A} (get : Settings → A) (ls : Storage)
    (s : Settings) :
  (∀ v s', get (setLanguage v s') = get s') →
  get (loadLanguage ls s) = get s.
Proof.
  intros Hset. unfold loadLanguage.
  destruct (ls !! "language") as [v|]; [|done].
  destruct (strictEq v (js "en")); [done|].
  by destruct (strictEq v (js "fi")).
Qed.

Lemma loadHighlightRules_get {A} (get : Settings → A) (ls : Storage)
    (s : Settings) :
  (∀ v s', get (setHighlightRules v s') = get s') →
  get (loadHighlightRules ls s) = get s.
Proof.
  intros Hset. unfold loadHighlightRules.
  destruct (ls !! "highlight_rules") as [v|]; [|done].
  destruct (truthy v); [|done]. by destruct (JSON.parse v).
Qed.

(** Each field of the mounted state comes from its own loader: the
    loaders that run later are skipped, the field's own loader is
    unfolded, and so are the loaders that ran before it. *)
Ltac skip_loaders get :=
  repeat first
    [ rewrite (loadBool_get get) by done
    | rewrite (loadString_get get) by done
    | rewrite (loadHighlightRules_get get) by done
    | rewrite (loadLanguage_get get) by done ].

Ltac mount_field get :=
  unfold mount, loadEffect; cbv zeta; skip_loaders get;
  lazymatch goal with
  | |- get (loadBool _ _ _ _) = _ => unfold loadBool at 1
  | |- get (loadString _ _ _ _) = _ => unfold loadString at 1
  | |- get (loadHighlightRules _ _) = _ => unfold loadHighlightRules at 1
  | |- get (loadLanguage _ _) = _ => unfold loadLanguage at 1
  end;
  repeat case_match; skip_loaders get; done.

Lemma mount_language (ls : Storage) :
  language (mount ls)
  = match ls !! "language" with
    | Some saved =>
        if strictEq saved (js "en") then en
        else if strictEq saved (js "fi") then fi else en
    | None => en
    end.
Proof. mount_field language. Qed.

Lemma mount_apiKey (ls : Storage) :
  apiKey (mount ls)
  = match ls !! "elevenlabs_api_key" with
    | Some saved => if truthy saved then saved else []
    | None => []
    end.
Proof. mount_field apiKey. Qed.

Lemma mount_echoCancellation (ls : Storage) :
  echoCancellation (mount ls)
  = match ls !! "echo_cancellation" with
    | Some saved => strictEq saved (js "true")
    | None => true
    end.
Proof. mount_field echoCancellation. Qed.

Lemma mount_noiseSuppression (ls : Storage) :
  noiseSuppression (mount ls)
  = match ls !! "noise_suppression" with
    | Some saved => strictEq saved (js "true")
    | None => true
    end.
Proof. mount_field noiseSuppression. Qed.

Lemma mount_selectedMicrophoneId (ls : Storage) :
  selectedMicrophoneId (mount ls)
  = match ls !! "selected_microphone_id" with
    | Some saved => if truthy saved then saved else []
    | None => []
    end.
Proof. mount_field selectedMicrophoneId. Qed.

Lemma mount_highlightRules (ls : Storage) :
  highlightRules (mount ls)
  = match ls !! "highlight_rules" with
    | Some saved =>
        if truthy saved then
          match JSON.parse saved with
          | Some rules => rules
          | None => []
          end
        else []
    | None => []
    end.
Proof. mount_field highlightRules. Qed.

Lemma mount_partialMatchHighlight (ls : Storage) :
  partialMatchHighlight (mount ls)
  = match ls !! "partial_match_highlight" with
    | Some saved => strictEq saved (js "true")
    | None => true
    end.
Proof. mount_field partialMatchHighlight. Qed.

Lemma mount_newestFirst (ls : Storage) :
  newestFirst (mount ls)
  = match ls !! "newest_first" with
    | Some saved => strictEq saved (js "true")
    | None => true
    end.
Proof. mount_field newestFirst. Qed.

Lemma strictEq_boolToString (v : bool) :
  strictEq (boolToString v) (js "true") = v.
Proof. by destruct v. Qed.

Lemma truthy_stringify (rules : list HighlightRule) :
  truthy (JSON.stringify rules) = true.
Proof. done. Qed.

(** C7.  A value stored by an updater is the value that the effect run
    on mount reads back from the storage the updater left: the language,
    the API key, the four boolean toggles, the microphone identifier and
    the list of highlight rules after an addition or a removal. *)
Theorem settings_round_trip :
  (∀ lang st, language (mount (updateLanguage lang st).2) = lang)
  ∧ (∀ key st, apiKey (mount (updateApiKey key st).2) = key)
  ∧ (∀ v st, echoCancellation (mount (updateEchoCancellation v st).2) = v)
  ∧ (∀ v st, noiseSuppression (mount (updateNoiseSuppression v st).2) = v)
  ∧ (∀ deviceId st,
       selectedMicrophoneId (mount (updateMicrophone deviceId st).2) = deviceId)
  ∧ (∀ w c now st,
       highlightRules (mount (addHighlightRule w c now st).2)
       = highlightRules st.1 ++ [mkRule now (trim w) c]
       ∧ highlightRules (addHighlightRule w c now st).1
         = highlightRules st.1 ++ [mkRule now (trim w) c])
  ∧ (∀ i st,
       highlightRules (mount (removeHighlightRule i st).2)
       = highlightRules (removeHighlightRule i st).1)
  ∧ (∀ v st,
       partialMatchHighlight (mount (updatePartialMatchHighlight v st).2) = v)
  ∧ (∀ v st, newestFirst (mount (updateNewestFirst v st).2) = v).
Proof.
  split_and!.
  - intros lang [s ls]. rewrite mount_language. simpl.
    rewrite lookup_insert_eq. by destruct lang.
  - intros key [s ls]. rewrite mount_apiKey. simpl.
    destruct key as [|c key]; simpl.
    + by rewrite lookup_delete_eq.
    + by rewrite lookup_insert_eq.
  - intros v [s ls]. rewrite mount_echoCancellation. simpl.
    by rewrite lookup_insert_eq, strictEq_boolToString.
  - intros v [s ls]. rewrite mount_noiseSuppression. simpl.
    by rewrite lookup_insert_eq, strictEq_boolToString.
  - intros deviceId [s ls]. rewrite mount_selectedMicrophoneId. simpl.
    rewrite lookup_insert_eq. by destruct deviceId.
  - intros w c now [s ls]. split; [|done].
    rewrite mount_highlightRules. cbn [addHighlightRule fst snd].
    by rewrite lookup_insert_eq, truthy_stringify, parse_stringify.
  - intros i [s ls]. rewrite mount_highlightRules.
    cbn [removeHighlightRule fst snd].
    by rewrite lookup_insert_eq, truthy_stringify, parse_stringify.
  - intros v [s ls]. rewrite mount_partialMatchHighlight. simpl.
    by rewrite lookup_insert_eq, strictEq_boolToString.
  - intros v [s ls]. rewrite mount_newestFirst. simpl.
    by rewrite lookup_insert_eq, strictEq_boolToString.
Qed.

(** The state and the storage stay in step: if a reload would restore the
    current state, it still does after any updater, and so after any
    session that starts with a mount. *)
Lemma settings_eq (s1 s2 : Settings) :
  language s1 = language s2 → apiKey s1 = apiKey s2 →
  echoCancellation s1 = echoCancellation s2 →
  noiseSuppression s1 = noiseSuppression s2 →
  selectedMicrophoneId s1 = selectedMicrophoneId s2 →
  highlightRules s1 = highlightRules s2 →
  partialMatchHighlight s1 = partialMatchHighlight s2 →
  newestFirst s1 = newestFirst s2 → s1 = s2.
Proof. destruct s1, s2; simpl; by intros -> -> -> -> -> -> -> ->. Qed.

Ltac mount_fields :=
  rewrite ?mount_language, ?mount_apiKey, ?mount_echoCancellation,
    ?mount_noiseSuppression, ?mount_selectedMicrophoneId,
    ?mount_highlightRules, ?mount_partialMatchHighlight, ?mount_newestFirst.

Lemma applyUpdate_in_sync (st : Settings * Storage) (u : SettingsUpdate) :
  mount st.2 = st.1 → mount (applyUpdate st u).2 = (applyUpdate st u).1.
Proof.
  destruct st as [s ls]. simpl. intros <-.
  destruct u; apply settings_eq; simpl; mount_fields; simpl;
    try destruct (truthy key) eqn:Hkey;
    rewrite ?lookup_insert_eq, ?lookup_delete_eq;
    rewrite ?lookup_insert_ne, ?lookup_delete_ne by done;
    rewrite ?strictEq_boolToString, ?truthy_stringify, ?parse_stringify;
    try done.
  - by destruct lang.
  - by destruct key.
  - by destruct key.
  - by destruct deviceId.
Qed.

(** The updaters keep the item of the highlight rules as the hook
    writes it. *)
Lemma applyUpdate_written (st : Settings * Storage) (u : SettingsUpdate) :
  WrittenByHook st.2 → WrittenByHook (applyUpdate st u).2.
Proof.
  destruct st as [s ls]. unfold WrittenByHook.
  destruct u; simpl; try destruct (truthy key);
    rewrite ?lookup_insert_eq;
    rewrite ?lookup_insert_ne, ?lookup_delete_ne by done;
    try done; intros _; right; by eexists.
Qed.

(** After the hook is mounted on a storage whose item of the highlight
    rules is absent, empty or as the hook wrote it in an earlier session,
    and any sequence of updaters has run, mounting again on the storage
    as it is then gives exactly the current settings: nothing that an
    updater changes is lost by a reload.  The item of the highlight
    rules is then again as the hook writes it, so this holds from one
    session to the next. *)
Lemma session_in_sync (ls : Storage) (us : list SettingsUpdate) :
  WrittenByHook ls →
  let st := fold_left applyUpdate us (mount ls, ls) in
  mount st.2 = st.1 ∧ WrittenByHook st.2.
Proof.
  intros Hls. simpl.
  assert (mount (mount ls, ls).2 = (mount ls, ls).1
          ∧ WrittenByHook (mount ls, ls).2) as H by done.
  revert H. generalize (mount ls, ls).
  induction us as [|u us IH]; intros st [Hst Hw]; [done|].
  simpl. apply IH. split.
  - by apply applyUpdate_in_sync.
  - by apply applyUpdate_written.
Qed.

Lemma session_in_sync_witness :
  let ls : Storage :=
    <["highlight_rules" := JSON.stringify [mkRule (js "1") (js "run") yellow]]>
      (<["language" := js "sv"]> ∅) in
  let st :=
    fold_left applyUpdate
      [AddHighlightRule (js " fast ") green (js "2"); UpdateNewestFirst false]
      (mount ls, ls) in
  mount st.2 = st.1 ∧ WrittenByHook st.2.
Proof.
  intros ls.
  apply (session_in_sync ls
           [AddHighlightRule (js " fast ") green (js "2");
            UpdateNewestFirst false]).
  unfold WrittenByHook, ls. rewrite lookup_insert_eq. right. by eexists.
Defined.

Example settings_survive_reload :
  let st := (initialSettings, (∅ : Storage)) in
  let st := updateLanguage fi st in
  let st := addHighlightRule (js " run ") yellow (js "1764500000000") st in
  let st := updateMicrophone [] st in
  let st := updatePartialMatchHighlight false st in
  mount st.2 = st.1.
Proof. vm_compute. reflexivity. Qed.

(** * Further properties *)

(** ** The nodes of [applyHighlights] *)

Section HighlightExtras.

Variable toLowerCase : JSString -> JSString.

Lemma nodeText_reactOfMarks (tip : JSString) (k : nat)
    (marked : list (JSString * Mark)) :
  concat (nodeText <$> reactOfMarks tip k marked) = concat (fst <$> marked).
Proof.
  revert k; induction marked as [|[t [|r p]] marked IH]; intros k; simpl;
    by rewrite ?IH.
Qed.

Lemma spanKeys_reactOfMarks (tip : JSString) (k : nat)
    (marked : list (JSString * Mark)) :
  spanKeys (reactOfMarks tip k marked)
  = seq k (length (spanKeys (reactOfMarks tip k marked))).
Proof.
  revert k; induction marked as [|[t [|r p]] marked IH]; intros k; simpl.
  - done.
  - apply IH.
  - f_equal. apply IH.
Qed.

(** The nodes that [applyHighlights] returns are never an empty list,
    and the texts they show concatenate to the input text; with rules
    and a text that is not empty there is one node per token. *)
Theorem applyHighlights_shows_text (text : JSString)
    (rules : list HighlightRule) (pm : bool) (tip : JSString) :
  applyHighlights toLowerCase text rules pm tip ≠ []
  ∧ concat (nodeText <$> applyHighlights toLowerCase text rules pm tip) = text
  ∧ (rules ≠ [] → text ≠ [] →
     length (applyHighlights toLowerCase text rules pm tip)
     = length (matchTokens text)).
Proof.
  destruct (decide (rules = [])) as [->|Hrules].
  { split_and!; [done | by simpl; rewrite app_nil_r | done]. }
  destruct (decide (text = [])) as [->|Htext].
  { split_and!; [by destruct rules | by destruct rules | done]. }
  rewrite applyHighlights_marks by done. split_and!.
  - intros H%(f_equal length).
    rewrite reactOfMarks_length, length_fmap in H. simpl in H.
    apply Htext, matchTokens_nil. by apply nil_length_inv.
  - rewrite nodeText_reactOfMarks, <- list_fmap_compose.
    rewrite <- (matchTokens_concat text) at 2. f_equal.
    rewrite <- (list_fmap_id (matchTokens text)) at 2.
    by apply list_fmap_ext.
  - intros _ _. by rewrite reactOfMarks_length, length_fmap.
Qed.

(** The keys of the highlight spans are the numbers from zero on, in the
    order of the nodes, so that no two spans share a key. *)
Theorem span_keys_consecutive (text : JSString) (rules : list HighlightRule)
    (pm : bool) (tip : JSString) :
  let keys := spanKeys (applyHighlights toLowerCase text rules pm tip) in
  keys = seq 0 (length keys) ∧ NoDup keys.
Proof.
  intros keys.
  assert (keys = seq 0 (length keys)) as Hk.
  { unfold keys.
    destruct (decide (rules = [])) as [->|Hrules]; [done|].
    destruct (decide (text = [])) as [->|Htext]; [by destruct rules|].
    rewrite applyHighlights_marks by done. apply spanKeys_reactOfMarks. }
  split; [done|]. rewrite Hk. apply NoDup_seq.
Qed.





Lemma winner_app (rules more : list HighlightRule) (pm : bool)
    (token : JSString) (j : nat) (r : HighlightRule) :
  winner toLowerCase rules pm token = Some (j, r) →
  winner toLowerCase (rules ++ more) pm token = Some (j, r).
Proof.
  rewrite !winner_FirstMatch. intros (Hj & Hm & Hfirst). split_and!.
  - by apply lookup_app_l_Some.
  - done.
  - intros i r' Hi Hlt. apply (Hfirst i r'); [|done].
    rewrite lookup_app_l in Hi; [done|].
    apply lookup_lt_Some in Hj. lia.
Qed.

(** Rules added at the end of the list, as [addHighlightRule] adds them,
    never change a token that is already highlighted: its piece of the
    HTML string stays the same and its node keeps its colours, its text
    and its indicator. *)
Theorem appended_rules_keep_highlights (text : JSString)
    (rules more : list HighlightRule) (pm : bool) (tip : JSString)
    (i : nat) (token : JSString) (j : nat) :
  matchTokens text !! i = Some token →
  isWhitespaceToken token = false →
  HighlightedBy toLowerCase rules pm token j →
  HighlightedBy toLowerCase (rules ++ more) pm token j
  ∧ htmlOfToken toLowerCase (rules ++ more) pm token
    = htmlOfToken toLowerCase rules pm token
  ∧ ∃ k k' bg fg ind,
      applyHighlights toLowerCase text rules pm tip !! i
      = Some (RSpan k bg fg token ind)
      ∧ applyHighlights toLowerCase text (rules ++ more) pm tip !! i
        = Some (RSpan k' bg fg token ind).
Proof.
  intros Hi Hws [r Hw]. pose proof (winner_app _ more _ _ _ _ Hw) as Hw'.
  destruct (winner_rendered toLowerCase text rules pm tip i token j r)
    as [[k Hk] Hhtml]; [done..|].
  destruct (winner_rendered toLowerCase text (rules ++ more) pm tip i token
              j r) as [[k' Hk'] Hhtml']; [done..|].
  split_and!; [by exists r | by rewrite Hhtml, Hhtml' | eauto 10].
Qed.

(** A text in which every token is whitespace or matched by no rule
    comes back as it is: the HTML string is the text, and the nodes are
    plain strings. *)
Theorem unmatched_text_unchanged (text : JSString)
    (rules : list HighlightRule) (pm : bool) (tip : JSString) :
  Forall (λ token,
            isWhitespaceToken token = true
            ∨ ∀ r, r ∈ rules → ¬ Matches toLowerCase pm token r)
    (matchTokens text) →
  applyHighlightsToHTML toLowerCase text rules pm = text
  ∧ Forall (λ n, n = RText (nodeText n))
      (applyHighlights toLowerCase text rules pm tip)
  ∧ spanKeys (applyHighlights toLowerCase text rules pm tip) = [].
Proof.
  intros Hall.
  assert (Forall (λ token, markOf toLowerCase rules pm token = Plain)
            (matchTokens text)) as Hplain.
  { eapply Forall_impl; [exact Hall|]. intros token [Hws | Hnone].
    - by apply markOf_whitespace.
    - by apply markOf_unmatched, winner_None. }
  assert (∀ k tokens,
            Forall (λ token, markOf toLowerCase rules pm token = Plain)
              tokens →
            reactOfMarks tip k
              ((λ t, (t, markOf toLowerCase rules pm t)) <$> tokens)
            = RText <$> tokens) as Hreact.
  { intros k tokens H. induction H as [|t ts Ht _ IH]; [done|].
    rewrite !fmap_cons. cbn [reactOfMarks]. rewrite Ht. by rewrite IH. }
  split.
  - rewrite applyHighlightsToHTML_marks.
    rewrite <- (matchTokens_concat text) at 2. f_equal.
    rewrite <- (list_fmap_id (matchTokens text)) at 2.
    apply Forall_fmap_ext_1. eapply Forall_impl; [exact Hplain|].
    intros token ->. simpl. by rewrite app_nil_r.
  - destruct (decide (rules = [])) as [->|Hrules];
      [by split; repeat constructor|].
    destruct (decide (text = [])) as [->|Htext].
    { destruct rules; by split; repeat constructor. }
    rewrite applyHighlights_marks, Hreact by done. split.
    + apply Forall_forall. by intros n (t & -> & _)%list_elem_of_fmap.
    + generalize (matchTokens text). intros ts. by induction ts.
Qed.

End HighlightExtras.

(** ** Colours, case and escaping *)

Lemma textColorOf_value (cfg : ColorConfig) :
  cfg ∈ HIGHLIGHT_COLORS → textColorOf (value cfg) = textColor cfg.
Proof.
  intros Hin. unfold HIGHLIGHT_COLORS in Hin.
  repeat (apply elem_of_cons in Hin as [->|Hin]; [by vm_compute|]).
  by apply elem_of_nil in Hin.
Qed.

(** The text colour of a highlight is that of the palette entry with
    the colour of the rule, and black for a colour that is not in the
    palette; it is always black or white. *)
Theorem textColorOf_palette (c : JSString) :
  (textColorOf c = js "#000000" ∨ textColorOf c = js "#FFFFFF")
  ∧ ((∀ cfg, cfg ∈ HIGHLIGHT_COLORS → value cfg ≠ c) →
     textColorOf c = js "#000000")
  ∧ (∀ cfg, cfg ∈ HIGHLIGHT_COLORS → value cfg = c →
     textColorOf c = textColor cfg).
Proof.
  split_and!.
  - unfold textColorOf, HIGHLIGHT_COLORS. cbn [List.find value].
    repeat (destruct (strictEq _ c); [by auto|]). by left.
  - intros Hnone. unfold textColorOf.
    destruct (List.find _ _) as [cfg|] eqn:Hf; [|done].
    apply find_some in Hf as [Hin Heq%strictEq_true].
    by destruct (Hnone cfg (proj2 (list_elem_of_In _ _) Hin)).
  - intros cfg Hin <-. by apply textColorOf_value.
Qed.

Lemma textColorOf_palette_witness :
  textColorOf (js "#4CAF50") = js "#FFFFFF".
Proof.
  refine (proj2 (proj2 (textColorOf_palette (js "#4CAF50")))
            (mkColor (js "Green") (js "#4CAF50") (js "#FFFFFF")) _ _).
  - unfold HIGHLIGHT_COLORS. rewrite !elem_of_cons. auto.
  - reflexivity.
Defined.

Section CaseInsensitive.

Variable toLowerCase : JSString -> JSString.






End CaseInsensitive.


Lemma escapeRegex_length (s : JSString) :
  length (escapeRegex s)
  = (length s + length (List.filter isRegexSpecial s))%nat.
Proof.
  induction s as [|c s IH]; [done|]. simpl. rewrite length_app, IH.
  destruct (isRegexSpecial c); simpl; lia.
Qed.

Lemma isRegexSpecial_spec (c : N) :
  isRegexSpecial c = true ↔ c ∈ regexSpecials.
Proof.
  unfold isRegexSpecial. rewrite existsb_exists. split.
  - intros (d & Hd%list_elem_of_In & ->%N.eqb_eq). done.
  - intros Hc. exists c. split; [by apply list_elem_of_In | apply N.eqb_refl].
Qed.

(** [escapeRegex] puts one backslash before each character of the class
    and nothing else: the result is the string with every such character
    preceded by a backslash.  Read as a pattern, the result is a literal
    and stands for the string that was escaped.  The result is longer by
    the number of characters of the class, a string without them is left
    as it is, and different strings give different results. *)
Theorem escapeRegex_faithful :
  (∀ s, escapeRegex s = backslashed s)
  ∧ (∀ s, literalOf (escapeRegex s) = Some s)
  ∧ (∀ s, length (escapeRegex s)
          = (length s + length (List.filter isRegexSpecial s))%nat)
  ∧ (∀ s, escapeRegex s = s ↔ Forall (λ c, isRegexSpecial c = false) s)
  ∧ (∀ s1 s2, escapeRegex s1 = escapeRegex s2 → s1 = s2).
Proof.
  split_and!.
  - intros s. unfold backslashed.
    induction s as [|c s IH]; [done|].
    cbn [escapeRegex mbind list_bind]. rewrite IH. f_equal.
    destruct (isRegexSpecial c) eqn:Hc.
    + apply isRegexSpecial_spec in Hc. by rewrite decide_True.
    + rewrite decide_False; [done|].
      intros Hin%isRegexSpecial_spec. congruence.
  - intros s. induction s as [|c s IH]; [done|].
    cbn [escapeRegex]. destruct (isRegexSpecial c) eqn:Hc.
    + cbn [app literalOf]. change (92 =? 92) with true. cbn iota.
      by rewrite Hc, IH.
    + cbn [app literalOf]. destruct (N.eqb_spec c 92) as [->|_]; [done|].
      by rewrite Hc, IH.
  - apply escapeRegex_length.
  - intros s. split.
    + intros H%(f_equal length). rewrite escapeRegex_length in H.
      assert (List.filter isRegexSpecial s = []) as Hf
        by (apply nil_length_inv; lia).
      apply Forall_forall. intros c Hc%list_elem_of_In.
      destruct (isRegexSpecial c) eqn:Hs; [|done].
      assert (In c (List.filter isRegexSpecial s)) as Hin
        by (by apply filter_In).
      by rewrite Hf in Hin.
    + induction 1 as [|c s Hc _ IH]; [done|]. simpl. by rewrite Hc, IH.
  - intros s1. induction s1 as [|c1 s1 IH]; intros [|c2 s2]; simpl.
    + done.
    + by destruct (isRegexSpecial c2).
    + by destruct (isRegexSpecial c1).
    + destruct (isRegexSpecial c1) eqn:H1, (isRegexSpecial c2) eqn:H2;
        simpl; intros H; simplify_eq; f_equal; by apply IH.
Qed.

Example escapeRegex_ex :
  escapeRegex (js "a.b*(c)") = js "a\.b\*\(c\)".
Proof. reflexivity. Qed.

(** A pattern with an operator, or with a class escape, is not a
    literal. *)
Example literalOf_ex :
  literalOf (js "a.b") = None ∧ literalOf (js "a\d") = None
  ∧ literalOf (js "a\.b") = Some (js "a.b").
Proof. by vm_compute. Qed.

(** A quoted CSV field can be told from what follows it: when two
    fields, each closed by its quote and followed by text that does not
    start with a quote, spell the same string, the two texts are equal
    and so are the two remainders. *)
Theorem csv_field_unique (s1 s2 rest1 rest2 : JSString) :
  head rest1 ≠ Some 34 →
  head rest2 ≠ Some 34 →
  escapeQuotes s1 ++ dq ++ rest1 = escapeQuotes s2 ++ dq ++ rest2 →
  s1 = s2 ∧ rest1 = rest2.
Proof.
  intros H1 H2. revert s2; induction s1 as [|c1 s1 IH]; intros [|c2 s2];
    simpl.
  - by intros [= ->].
  - destruct (N.eqb_spec c2 34) as [->|Hc]; simpl; intros [= Heq]; subst.
    + by destruct H1.
    + done.
  - destruct (N.eqb_spec c1 34) as [->|Hc]; simpl; intros [= Heq]; subst.
    + by destruct H2.
    + done.
  - destruct (N.eqb_spec c1 34) as [->|Hc1],
      (N.eqb_spec c2 34) as [->|Hc2]; simpl; intros Heq; simplify_eq.
    + destruct (IH s2) as [-> ->]; done.
    + destruct (IH s2) as [-> ->]; done.
Qed.

Lemma csv_field_unique_witness :
  js "say " ++ dq ++ js "hi" = js "say " ++ dq ++ js "hi"
  ∧ [10] ++ js "next" = [10] ++ js "next".
Proof.
  apply (csv_field_unique (js "say " ++ dq ++ js "hi")
           (js "say " ++ dq ++ js "hi") ([10] ++ js "next")
           ([10] ++ js "next")); [discriminate | discriminate | reflexivity].
Defined.

(** ** Shadowed rules *)


Lemma Substring_refl (a : JSString) : Substring a a.
Proof. exists [], []. by rewrite app_nil_r. Qed.






(** ** Trimming *)

Lemma trimStart_fixed (s : JSString) :
  (head s ≫= λ c, Some (isWhiteSpace c)) ≠ Some true → trimStart s = s.
Proof. destruct s as [|c s]; [done|]. simpl. by destruct (isWhiteSpace c). Qed.

Lemma trimStart_head (s : JSString) :
  (head (trimStart s) ≫= λ c, Some (isWhiteSpace c)) ≠ Some true.
Proof.
  induction s as [|c s IH]; [done|]. simpl.
  destruct (isWhiteSpace c) eqn:Hc; [done|]. simpl. by rewrite Hc.
Qed.

Lemma trimStart_suffix (s : JSString) :
  ∃ pre, s = pre ++ trimStart s ∧ forallb isWhiteSpace pre = true.
Proof.
  induction s as [|c s (pre & Hs & Hpre)]; [by exists []|]. simpl.
  destruct (isWhiteSpace c) eqn:Hc.
  - exists (c :: pre). simpl. rewrite Hc, Hpre. by rewrite Hs at 1.
  - by exists [].
Qed.

Lemma head_app_nonempty {A} (l k : list A) :
  l ≠ [] → head (l ++ k) = head l.
Proof. by destruct l. Qed.

Lemma rev_reverse {A} (l : list A) : rev l = reverse l.
Proof. unfold reverse. apply rev_alt. Qed.

(** The result of [trim] has no whitespace at either end, and [trim]
    leaves such a string alone. *)
Lemma trim_Trimmed (s : JSString) : Trimmed (trim s).
Proof.
  unfold Trimmed, trim.
  set (a := trimStart s). set (b := trimStart (rev a)).
  split.
  - destruct (decide (b = [])) as [->|Hb]; [done|].
    destruct (trimStart_suffix (rev a)) as (pre & Hra & _). fold b in Hra.
    apply (f_equal (@rev N)) in Hra.
    rewrite rev_involutive, rev_app_distr in Hra.
    assert (rev b ≠ []) as Hrb.
    { intros H%(f_equal (@rev N)). by rewrite rev_involutive in H. }
    rewrite <- (head_app_nonempty (rev b) (rev pre)), <- Hra by done.
    apply trimStart_head.
  - rewrite rev_reverse, last_reverse. apply trimStart_head.
Qed.

Lemma trim_fixed (s : JSString) : Trimmed s → trim s = s.
Proof.
  intros [Hh Hl]. unfold trim. rewrite (trimStart_fixed s Hh).
  rewrite trimStart_fixed; [apply rev_involutive|].
  by rewrite rev_reverse, head_reverse.
Qed.

Lemma trim_idempotent (s : JSString) : trim (trim s) = trim s.
Proof. apply trim_fixed, trim_Trimmed. Qed.

(** ** Loading settings from a storage that was not written by the hook *)

Lemma settingsKeys_elem (k : string) :
  k ∈ settingsKeys ↔
  k = "language" ∨ k = "elevenlabs_api_key" ∨ k = "echo_cancellation"
  ∨ k = "noise_suppression" ∨ k = "selected_microphone_id"
  ∨ k = "highlight_rules" ∨ k = "partial_match_highlight"
  ∨ k = "newest_first".
Proof.
  unfold settingsKeys. rewrite !elem_of_cons, elem_of_nil. tauto.
Qed.

Ltac not_settings_key :=
  let H := fresh in
  rewrite settingsKeys_elem; intros H;
  repeat destruct H as [H|H]; discriminate H.

Lemma mount_ext (ls1 ls2 : Storage) :
  (∀ k, k ∈ settingsKeys → ls1 !! k = ls2 !! k) → mount ls1 = mount ls2.
Proof.
  intros Hk. apply settings_eq; mount_fields;
    rewrite Hk; try done; apply settingsKeys_elem; tauto.
Qed.

(** The settings that the hook restores depend on the eight keys of the
    hook and on nothing else in the storage: two storages with the same
    items under these keys give the same settings, whatever else they
    hold; and each setting depends on the item of its own key alone. *)
Theorem mount_reads_settings_keys_only (ls1 ls2 : Storage) :
  ((∀ k, k ∈ settingsKeys → ls1 !! k = ls2 !! k) →
   mount ls1 = mount ls2)
  ∧ (ls1 !! "language" = ls2 !! "language" →
     language (mount ls1) = language (mount ls2))
  ∧ (ls1 !! "elevenlabs_api_key" = ls2 !! "elevenlabs_api_key" →
     apiKey (mount ls1) = apiKey (mount ls2))
  ∧ (ls1 !! "echo_cancellation" = ls2 !! "echo_cancellation" →
     echoCancellation (mount ls1) = echoCancellation (mount ls2))
  ∧ (ls1 !! "noise_suppression" = ls2 !! "noise_suppression" →
     noiseSuppression (mount ls1) = noiseSuppression (mount ls2))
  ∧ (ls1 !! "selected_microphone_id" = ls2 !! "selected_microphone_id" →
     selectedMicrophoneId (mount ls1) = selectedMicrophoneId (mount ls2))
  ∧ (ls1 !! "highlight_rules" = ls2 !! "highlight_rules" →
     highlightRules (mount ls1) = highlightRules (mount ls2))
  ∧ (ls1 !! "partial_match_highlight" = ls2 !! "partial_match_highlight" →
     partialMatchHighlight (mount ls1) = partialMatchHighlight (mount ls2))
  ∧ (ls1 !! "newest_first" = ls2 !! "newest_first" →
     newestFirst (mount ls1) = newestFirst (mount ls2)).
Proof.
  split_and!; [apply mount_ext|..]; intros H; mount_fields; by rewrite H.
Qed.

Lemma mount_reads_settings_keys_only_witness :
  mount (<["notice_privacy_dismissed" := js "true"]> ∅) = mount ∅.
Proof.
  refine (proj1 (mount_reads_settings_keys_only _ _) _). intros k Hk.
  apply lookup_insert_ne. intros <-.
  apply settingsKeys_elem in Hk. repeat destruct Hk as [Hk|Hk]; discriminate.
Defined.

(** What the hook makes of missing or unexpected items.  With none of
    its keys in the storage the state is the initial one.  A stored
    language other than [en] and [fi] leaves English.  A boolean
    setting is on exactly when its item is the string [true], so any
    other stored string turns it off.  An empty item for the API key,
    the microphone or the rules is ignored. *)
Theorem mount_fallbacks (ls : Storage) :
  ((∀ k, k ∈ settingsKeys → ls !! k = None) →
   mount ls = initialSettings)
  ∧ (∀ v, ls !! "language" = Some v → v ≠ js "en" → v ≠ js "fi" →
          language (mount ls) = en)
  ∧ (∀ v, ls !! "echo_cancellation" = Some v →
          (echoCancellation (mount ls) = true ↔ v = js "true"))
  ∧ (∀ v, ls !! "noise_suppression" = Some v →
          (noiseSuppression (mount ls) = true ↔ v = js "true"))
  ∧ (∀ v, ls !! "partial_match_highlight" = Some v →
          (partialMatchHighlight (mount ls) = true ↔ v = js "true"))
  ∧ (∀ v, ls !! "newest_first" = Some v →
          (newestFirst (mount ls) = true ↔ v = js "true"))
  ∧ (ls !! "elevenlabs_api_key" = Some [] → apiKey (mount ls) = [])
  ∧ (ls !! "selected_microphone_id" = Some [] →
     selectedMicrophoneId (mount ls) = [])
  ∧ (ls !! "highlight_rules" = Some [] → highlightRules (mount ls) = []).
Proof.
  split_and!.
  - intros Hnone. apply settings_eq; mount_fields;
      rewrite Hnone; try done; apply settingsKeys_elem; tauto.
  - intros v Hv Hen Hfi. rewrite mount_language, Hv.
    by rewrite (proj2 (strictEq_false _ _) Hen),
      (proj2 (strictEq_false _ _) Hfi).
  - intros v Hv. rewrite mount_echoCancellation, Hv. apply strictEq_true.
  - intros v Hv. rewrite mount_noiseSuppression, Hv. apply strictEq_true.
  - intros v Hv. rewrite mount_partialMatchHighlight, Hv. apply strictEq_true.
  - intros v Hv. rewrite mount_newestFirst, Hv. apply strictEq_true.
  - intros Hv. by rewrite mount_apiKey, Hv.
  - intros Hv. by rewrite mount_selectedMicrophoneId, Hv.
  - intros Hv. by rewrite mount_highlightRules, Hv.
Qed.

Lemma mount_fallbacks_witness :
  echoCancellation (mount (<["echo_cancellation" := js "yes"]> ∅)) = true
  ↔ js "yes" = js "true".
Proof.
  refine (proj1 (proj2 (proj2
    (mount_fallbacks (<["echo_cancellation" := js "yes"]> ∅)))) (js "yes") _).
  reflexivity.
Defined.

(** ** What the updaters write *)

Lemma storageKeyOf_settingsKeys (u : SettingsUpdate) :
  storageKeyOf u ∈ settingsKeys.
Proof. apply settingsKeys_elem. destruct u; simpl; tauto. Qed.

Lemma applyUpdate_lookup_ne (st : Settings * Storage) (u : SettingsUpdate)
    (k : string) :
  k ≠ storageKeyOf u → (applyUpdate st u).2 !! k = st.2 !! k.
Proof.
  intros Hk. destruct st as [s ls], u; simpl in *;
    try destruct (truthy key);
    by rewrite ?lookup_insert_ne, ?lookup_delete_ne by done.
Qed.

(** An updater writes the item of its own key and no other; the key is
    one of the keys that the hook reads. *)
Theorem updater_writes_own_key (st : Settings * Storage)
    (u : SettingsUpdate) (k : string) :
  storageKeyOf u ∈ settingsKeys
  ∧ (k ≠ storageKeyOf u → (applyUpdate st u).2 !! k = st.2 !! k).
Proof.
  split; [apply storageKeyOf_settingsKeys | apply applyUpdate_lookup_ne].
Qed.

Lemma updater_writes_own_key_witness :
  (applyUpdate (initialSettings, ∅) (UpdateLanguage fi)).2 !! "newest_first"
  = (∅ : Storage) !! "newest_first".
Proof.
  refine (proj2 (updater_writes_own_key (initialSettings, ∅)
                   (UpdateLanguage fi) "newest_first") _).
  discriminate.
Defined.

Lemma filter_sublist {A} (f : A → bool) (l : list A) :
  List.filter f l `sublist_of` l.
Proof.
  induction l as [|x l IH]; simpl; [done|].
  destruct (f x); by constructor.
Qed.

(** [removeHighlightRule] removes every rule with the given identifier
    and no other: the rules left are those with another identifier, in
    their order; with no rule of that identifier the list is unchanged;
    and the storage holds the JSON text of the new list. *)
Theorem removeHighlightRule_spec (i : JSString) (st : Settings * Storage) :
  let rules := highlightRules st.1 in
  let rules' := highlightRules (removeHighlightRule i st).1 in
  (∀ r, r ∈ rules' ↔ r ∈ rules ∧ id r ≠ i)
  ∧ rules' `sublist_of` rules
  ∧ (Forall (λ r, id r ≠ i) rules → rules' = rules)
  ∧ (removeHighlightRule i st).2 !! "highlight_rules"
    = Some (JSON.stringify rules')
  ∧ JSON.parse (JSON.stringify rules') = Some rules'.
Proof.
  destruct st as [s ls]. simpl. split_and!.
  - intros r. rewrite !list_elem_of_In, filter_In, negb_true_iff.
    by rewrite strictEq_false.
  - apply filter_sublist.
  - induction 1 as [|r rules Hr _ IH]; [done|]. simpl.
    rewrite (proj2 (strictEq_false _ _) Hr). simpl. by rewrite IH.
  - apply lookup_insert_eq.
  - apply parse_stringify.
Qed.

Lemma filter_app_last_out {A} (f : A → bool) (l : list A) (x : A) :
  f x = false → Forall (λ y, f y = true) l → List.filter f (l ++ [x]) = l.
Proof.
  intros Hx. induction 1 as [|y l Hy _ IH]; simpl; [by rewrite Hx|].
  by rewrite Hy, IH.
Qed.

(** Removing, by its identifier, the rule that was last added gives the
    rule list of before, provided no older rule has that identifier. *)
Theorem add_then_remove (w c now : JSString) (st : Settings * Storage) :
  Forall (λ r, id r ≠ now) (highlightRules st.1) →
  highlightRules (removeHighlightRule now (addHighlightRule w c now st)).1
  = highlightRules st.1.
Proof.
  intros Hfresh. destruct st as [s ls]. simpl in *.
  apply filter_app_last_out.
  - simpl. apply negb_false_iff, strictEq_true. done.
  - eapply Forall_impl; [exact Hfresh|]. intros r Hr. simpl.
    by apply negb_true_iff, strictEq_false.
Qed.

Lemma add_then_remove_witness :
  highlightRules
    (removeHighlightRule (js "2")
       (addHighlightRule (js "run") yellow (js "2")
          (setHighlightRules [mkRule (js "1") (js "walk") green]
             initialSettings, ∅))).1
  = [mkRule (js "1") (js "walk") green].
Proof.
  apply (add_then_remove (js "run") yellow (js "2")
           (setHighlightRules [mkRule (js "1") (js "walk") green]
              initialSettings, ∅)).
  repeat constructor. discriminate.
Defined.

(** ** The first-time notices and the settings share the storage *)

(** A notice that was dismissed stays hidden on every later mount, and
    dismissing one notice neither hides another nor changes what the
    settings hook restores; in turn no settings updater brings a notice
    back.  With none of the three items in the storage all notices are
    shown, and once all three were dismissed the component renders
    nothing. *)
Theorem notices_persist (n : FirstTimeNotices.Notices) (ls : Storage)
    (s : Settings) (u : SettingsUpdate) :
  let m := FirstTimeNotices.noticesMount in
  let d0 := (FirstTimeNotices.dismissNotice0 (n, ls)).2 in
  let d1 := (FirstTimeNotices.dismissNotice1 (n, ls)).2 in
  let d2 := (FirstTimeNotices.dismissNotice2 (n, ls)).2 in
  m d0 = FirstTimeNotices.mkNotices false
           (FirstTimeNotices.showNotice1 (m ls))
           (FirstTimeNotices.showNotice2 (m ls))
  ∧ m d1 = FirstTimeNotices.mkNotices
             (FirstTimeNotices.showNotice0 (m ls)) false
             (FirstTimeNotices.showNotice2 (m ls))
  ∧ m d2 = FirstTimeNotices.mkNotices
             (FirstTimeNotices.showNotice0 (m ls))
             (FirstTimeNotices.showNotice1 (m ls)) false
  ∧ mount d0 = mount ls ∧ mount d1 = mount ls ∧ mount d2 = mount ls
  ∧ m (applyUpdate (s, ls) u).2 = m ls
  ∧ m ∅ = FirstTimeNotices.mkNotices true true true
  ∧ FirstTimeNotices.rendersNothing
      (m (FirstTimeNotices.dismissNotice2
            (FirstTimeNotices.dismissNotice1
               (FirstTimeNotices.dismissNotice0 (n, ls)))).2) = true.
Proof.
  assert (∀ k v, k ∉ settingsKeys → mount (<[k := v]> ls) = mount ls)
    as Hm.
  { intros k v Hk. apply mount_ext. intros k' Hk'.
    apply lookup_insert_ne. by intros <-. }
  assert (∀ k, k ∉ settingsKeys →
            FirstTimeNotices.notDismissed (applyUpdate (s, ls) u).2 k
            = FirstTimeNotices.notDismissed ls k) as Hn.
  { intros k Hk. unfold FirstTimeNotices.notDismissed.
    rewrite (applyUpdate_lookup_ne (s, ls) u k); [done|].
    intros ->. apply Hk, storageKeyOf_settingsKeys. }
  simpl. unfold FirstTimeNotices.noticesMount, FirstTimeNotices.notDismissed.
  split_and!; simpl;
    rewrite ?lookup_insert_eq; rewrite ?lookup_insert_ne by done; try done.
  - apply Hm. not_settings_key.
  - apply Hm. not_settings_key.
  - apply Hm. not_settings_key.
  - fold (FirstTimeNotices.notDismissed (applyUpdate (s, ls) u).2
            "notice_apikey_dismissed").
    fold (FirstTimeNotices.notDismissed (applyUpdate (s, ls) u).2
            "notice_privacy_dismissed").
    fold (FirstTimeNotices.notDismissed (applyUpdate (s, ls) u).2
            "notice_persistence_dismissed").
    rewrite !Hn; [done|..]; not_settings_key.
  - repeat (rewrite lookup_insert_eq || rewrite lookup_insert_ne by done).
    done.
Qed.

(** ** Rules added through the highlight form *)

Lemma handleAdd_call (f : HighlightSettings.Form) (w c : JSString) :
  (HighlightSettings.handleAdd f).1 = Some (w, c) →
  w = trim (HighlightSettings.newWord f) ∧ w ≠ []
  ∧ c = HighlightSettings.selectedColor f
  ∧ HighlightSettings.newWord (HighlightSettings.handleAdd f).2 = [].
Proof.
  unfold HighlightSettings.handleAdd.
  destruct (trim (HighlightSettings.newWord f)) as [|x w'] eqn:Ht; simpl;
    [done|].
  by intros [= <- <-].
Qed.

Lemma formStep_palette (f : HighlightSettings.Form)
    (e : HighlightSettings.FormEvent) :
  (∃ cfg, cfg ∈ HIGHLIGHT_COLORS
          ∧ value cfg = HighlightSettings.selectedColor f) →
  ∃ cfg, cfg ∈ HIGHLIGHT_COLORS
         ∧ value cfg
           = HighlightSettings.selectedColor
               (HighlightSettings.formStep f e).2.
Proof.
  intros Hf. destruct e as [w | | | index |]; simpl; try done.
  - destruct (HIGHLIGHT_COLORS !! index) as [c|] eqn:Hc; [|done].
    exists c. split; [|done]. by eapply list_elem_of_lookup_2.
  - unfold HighlightSettings.handleAdd.
    by destruct (truthy (trim (HighlightSettings.newWord f))).
Qed.

Lemma formRun_calls (es : list HighlightSettings.FormEvent)
    (f : HighlightSettings.Form) :
  (∃ cfg, cfg ∈ HIGHLIGHT_COLORS
          ∧ value cfg = HighlightSettings.selectedColor f) →
  Forall (λ wc : JSString * JSString,
            wc.1 ≠ [] ∧ Trimmed wc.1
            ∧ ∃ cfg, cfg ∈ HIGHLIGHT_COLORS ∧ value cfg = wc.2)
    (HighlightSettings.formRun f es).1.
Proof.
  revert f; induction es as [|e es IH]; intros f Hf; [constructor|].
  cbn [HighlightSettings.formRun].
  pose proof (formStep_palette f e Hf) as Hf'.
  destruct (HighlightSettings.formStep f e) as [call f'] eqn:Hstep.
  specialize (IH f' Hf').
  destruct (HighlightSettings.formRun f' es) as [calls f'']. simpl in *.
  destruct call as [[w c]|]; [|done]. constructor; [|done].
  destruct e; simpl in Hstep; try by simplify_eq.
  - by destruct (HIGHLIGHT_COLORS !! index); simplify_eq.
  - assert ((HighlightSettings.handleAdd f).1 = Some (w, c)) as Hcall
      by (by rewrite Hstep).
    apply handleAdd_call in Hcall as (-> & Hne & -> & _).
    split_and!; [done | apply trim_Trimmed | done].
Qed.

(** Whatever is done on the highlight form, every call it makes to add
    a rule carries a word that is not empty and has no whitespace at
    either end, and a colour of the palette.  [addHighlightRule] then
    stores the word as it is, so that no rule added through the form
    has an empty word, and the text colour of its highlights is the one
    the palette gives. *)
Theorem rules_added_through_form (es : list HighlightSettings.FormEvent) :
  Forall (λ wc : JSString * JSString,
            wc.1 ≠ [] ∧ Trimmed wc.1
            ∧ (∃ cfg, cfg ∈ HIGHLIGHT_COLORS ∧ value cfg = wc.2
                      ∧ textColorOf wc.2 = textColor cfg)
            ∧ ∀ now st,
                highlightRules (addHighlightRule wc.1 wc.2 now st).1
                = highlightRules st.1 ++ [mkRule now wc.1 wc.2])
    (HighlightSettings.formRun HighlightSettings.initialForm es).1.
Proof.
  eapply Forall_impl.
  - apply formRun_calls.
    exists (mkColor (js "Yellow") (js "#FFEB3B") (js "#000000")).
    split; [|done]. unfold HIGHLIGHT_COLORS. apply elem_of_cons. by left.
  - intros [w c] (Hne & Htrim & cfg & Hin & Hc). simpl in *.
    split_and!; [done | done | |].
    + exists cfg. split_and!; [done | done |].
      rewrite <- Hc. by apply textColorOf_value.
    + intros now st. unfold addHighlightRule. simpl.
      by rewrite (trim_fixed w Htrim).
Qed.

Example form_session_ex :
  (HighlightSettings.formRun HighlightSettings.initialForm
     [HighlightSettings.TypeWord (js "   ");
      HighlightSettings.Add;
      HighlightSettings.PickColor 1;
      HighlightSettings.TypeWord (js " run ");
      HighlightSettings.Add;
      HighlightSettings.Add]).1
  = [(js "run", green)].
Proof. by vm_compute. Qed.

(** ** The transcript handlers *)

Lemma appendUnlessSaved_elem (entry : Transcript) (prev : list Transcript) :
  entryText entry ∈ entryText <$> appendUnlessSaved entry prev.
Proof.
  unfold appendUnlessSaved. destruct (existsb _ prev) eqn:He.
  - apply existsb_exists in He as (t & Hin & Ht%strictEq_true).
    rewrite <- Ht. apply list_elem_of_fmap_2. by apply list_elem_of_In.
  - rewrite fmap_app. apply elem_of_app. right. simpl.
    apply list_elem_of_singleton. done.
Qed.

Lemma appendUnlessSaved_prefix (entry : Transcript) (prev : list Transcript) :
  prev `prefix_of` appendUnlessSaved entry prev
  ∧ (length (appendUnlessSaved entry prev) ≤ S (length prev))%nat.
Proof.
  unfold appendUnlessSaved. destruct (existsb _ prev).
  - split; [done | lia].
  - split; [by apply prefix_app_r | rewrite length_app; simpl; lia].
Qed.

(** A disconnect saves the last partial transcript at most once.  A
    partial text that is empty or whitespace only is not saved and the
    state stays as it is.  Any other partial text is among the
    confirmed texts afterwards and the reference is cleared.  A second
    disconnect, and a disconnect that follows a committed transcript,
    change nothing. *)
Theorem disconnect_saves_once (i ts i2 ts2 : JSString) (p : PageState) :
  let p' := onDisconnect i ts p in
  (trim (lastPartialTranscriptRef p) = [] → p' = p)
  ∧ (trim (lastPartialTranscriptRef p) ≠ [] →
     lastPartialTranscriptRef p' = []
     ∧ lastPartialTranscriptRef p
       ∈ entryText <$> transcriptsWithTimestamps p')
  ∧ onDisconnect i2 ts2 p' = p'
  ∧ ∀ t i3 ts3,
      onDisconnect i2 ts2 (onCommittedTranscriptWithTimestamps t i3 ts3 p)
      = onCommittedTranscriptWithTimestamps t i3 ts3 p.
Proof.
  simpl. unfold onDisconnect.
  destruct (lastPartialTranscriptRef p) as [|c partialText] eqn:Href.
  { simpl. rewrite Href. by split_and!. }
  cbn [truthy andb].
  destruct (trim (c :: partialText)) as [|c' w] eqn:Htrim; simpl.
  - rewrite Href. simpl. rewrite Htrim. by split_and!.
  - split_and!; try done. intros _. split; [done|].
    apply (appendUnlessSaved_elem (mkTranscript i (c :: partialText) ts)).
Qed.

Lemma disconnect_saves_once_witness :
  js "hello"
  ∈ entryText <$> transcriptsWithTimestamps
      (onDisconnect (js "1") (js "14.30.45") (mkPage [] (js "hello"))).
Proof.
  refine (proj2 (proj1 (proj2 (disconnect_saves_once (js "1") (js "14.30.45")
    (js "2") (js "14.30.50") (mkPage [] (js "hello")))) _)).
  vm_compute. discriminate.
Defined.

(** Apart from a confirmed clear, no event removes, changes or reorders
    a confirmed transcript: the list before the event is a prefix of
    the list after it, which has at most one entry more. *)
Theorem transcripts_only_grow (p : PageState) (e : PageEvent) :
  e ≠ ClearTranscripts true →
  transcriptsWithTimestamps p
    `prefix_of` transcriptsWithTimestamps (handle p e)
  ∧ (length (transcriptsWithTimestamps (handle p e))
     ≤ S (length (transcriptsWithTimestamps p)))%nat.
Proof.
  intros He. destruct e as [i ts | t | t i ts | [|]]; simpl.
  - unfold onDisconnect. destruct (_ && _); simpl.
    + apply appendUnlessSaved_prefix.
    + split; [done | lia].
  - split; [done | lia].
  - apply appendUnlessSaved_prefix.
  - done.
  - split; [done | lia].
Qed.

Lemma transcripts_only_grow_witness :
  transcriptsWithTimestamps initialPage
    `prefix_of` transcriptsWithTimestamps
                  (handle initialPage
                     (CommittedTranscript (js "hi") (js "1") (js "14.30.45"))).
Proof.
  refine (proj1 (transcripts_only_grow initialPage
    (CommittedTranscript (js "hi") (js "1") (js "14.30.45")) _)).
  discriminate.
Defined.

(** ** The page *)

Section AppProps.

Variable toLowerCase : JSString -> JSString.

Lemma step_settings (a : App.AppState) (e : App.AppEvent) :
  App.settings (App.step toLowerCase a e) = App.settings a
  ∨ ∃ u, App.settings (App.step toLowerCase a e)
         = applyUpdate (App.settings a) u.
Proof.
  destruct e; simpl; try by left.
  - right. by exists (UpdateMicrophone deviceId').
  - unfold App.handleSaveApiKey.
    destruct (truthy (trim (App.tempApiKey a))); [|by left].
    right. by exists (UpdateApiKey (trim (App.tempApiKey a))).
  - right. by exists (UpdateApiKey []).
  - right.
    by exists (UpdateEchoCancellation
                 (negb (echoCancellation (App.settings a).1))).
  - right.
    by exists (UpdateNoiseSuppression
                 (negb (noiseSuppression (App.settings a).1))).
  - right. by exists (UpdateLanguage lang).
  - left. unfold App.handleExportCSV.
    by destruct (transcriptsWithTimestamps (App.page a)).
  - left. unfold App.handleExportPDF.
    destruct (transcriptsWithTimestamps (App.page a)); [done|].
    destruct (exportAsPDF _ _ _ _ _ _ _ _ _ _ _) as [[|] actions]; done.
  - right. by exists (AddHighlightRule word' color' now).
  - right. by exists (RemoveHighlightRule id').
  - left. unfold App.handleClearTranscripts. by destruct confirmed.
  - right.
    by exists (UpdatePartialMatchHighlight
                 (negb (partialMatchHighlight (App.settings a).1))).
  - right.
    by exists (UpdateNewestFirst (negb (newestFirst (App.settings a).1))).
Qed.

(** Whatever happens on the page after it is mounted, under any address,
    on a storage whose item of the highlight rules is absent, empty or as
    the hook wrote it, the settings in memory are those that a reload
    would restore from the storage as it is then, and the item of the
    highlight rules is again as the hook writes it. *)
Theorem page_settings_survive_reload (protocol hostname : JSString)
    (ls : Storage) (es : list App.AppEvent) :
  WrittenByHook ls →
  let a :=
    fold_left (App.step toLowerCase) es (App.mounted protocol hostname ls) in
  mount (App.settings a).2 = (App.settings a).1
  ∧ WrittenByHook (App.settings a).2.
Proof.
  intros Hls. simpl.
  assert (mount (App.settings (App.mounted protocol hostname ls)).2
          = (App.settings (App.mounted protocol hostname ls)).1
          ∧ WrittenByHook (App.settings (App.mounted protocol hostname ls)).2)
    as H.
  { unfold App.mounted, App.httpsCheck. by destruct (_ && _). }
  revert H. generalize (App.mounted protocol hostname ls).
  induction es as [|e es IH]; intros a [Ha Hw]; [done|].
  simpl. apply IH.
  destruct (step_settings a e) as [-> | [u ->]]; [done|]. split.
  - by apply applyUpdate_in_sync.
  - by apply applyUpdate_written.
Qed.


End AppProps.

Lemma page_settings_survive_reload_witness :
  let ls : Storage :=
    <["highlight_rules" := JSON.stringify [mkRule (js "1") (js "run") yellow]]>
      ∅ in
  let a :=
    fold_left (App.step asciiLower)
      [App.AddHighlight (js "fast") green (js "2"); App.ToggleNewestFirst;
       App.Scribe (CommittedTranscript (js "run fast") (js "3") (js "14.30"))]
      (App.mounted (js "http:") (js "example.org") ls) in
  mount (App.settings a).2 = (App.settings a).1
  ∧ WrittenByHook (App.settings a).2.
Proof.
  intros ls.
  apply (page_settings_survive_reload asciiLower (js "http:")
           (js "example.org") ls
           [App.AddHighlight (js "fast") green (js "2"); App.ToggleNewestFirst;
            App.Scribe
              (CommittedTranscript (js "run fast") (js "3") (js "14.30"))]).
  unfold WrittenByHook, ls. rewrite lookup_insert_eq. right. by eexists.
Defined.

(** The API key that [handleSaveApiKey] stores is the trimmed input: it
    is not empty and has no whitespace at either end, it is what a
    reload restores, and the modal is closed.  An input that is empty or
    whitespace only changes nothing.  [handleClearApiKey] removes the
    item from the storage and empties the key and the input. *)
Theorem api_key_handlers (a : App.AppState) :
  let key := trim (App.tempApiKey a) in
  let saved := App.handleSaveApiKey a in
  let cleared := App.handleClearApiKey a in
  (key = [] → saved = a)
  ∧ (key ≠ [] →
     apiKey (App.settings saved).1 = key
     ∧ (App.settings saved).2 !! "elevenlabs_api_key" = Some key
     ∧ apiKey (mount (App.settings saved).2) = key
     ∧ Trimmed key
     ∧ App.showApiKeyModal saved = false)
  ∧ apiKey (App.settings cleared).1 = []
  ∧ (App.settings cleared).2 !! "elevenlabs_api_key" = None
  ∧ apiKey (mount (App.settings cleared).2) = []
  ∧ App.tempApiKey cleared = [].
Proof.
  simpl. unfold App.handleSaveApiKey, App.handleClearApiKey.
  destruct (trim (App.tempApiKey a)) as [|c key] eqn:Htrim; simpl.
  - split_and!; try done.
    + apply lookup_delete_eq.
    + by rewrite mount_apiKey, lookup_delete_eq.
  - split_and!; try done.
    + intros _. split_and!; try done.
      * apply lookup_insert_eq.
      * by rewrite mount_apiKey, lookup_insert_eq.
      * rewrite <- Htrim. apply trim_Trimmed.
    + apply lookup_delete_eq.
    + by rewrite mount_apiKey, lookup_delete_eq.
Qed.

Lemma api_key_handlers_witness :
  apiKey
    (App.settings
       (App.handleSaveApiKey
          (App.setTempApiKey (js " sk_123 ") (App.initialApp ∅)))).1
  = js "sk_123".
Proof.
  refine (proj1 (proj1 (proj2 (api_key_handlers
    (App.setTempApiKey (js " sk_123 ") (App.initialApp ∅)))) _)).
  vm_compute. discriminate.
Defined.

(** Each of the four toggles flips its setting and writes the new value
    to the item of that setting, leaving the rest of the storage as it
    is, and pressing it twice gives back the settings of before. *)
Theorem toggles_flip (a : App.AppState) :
  let s := (App.settings a).1 in
  let ls := (App.settings a).2 in
  let after (h : App.AppState → App.AppState) := (App.settings (h a)).1 in
  let stored (h : App.AppState → App.AppState) := (App.settings (h a)).2 in
  let twice (h : App.AppState → App.AppState) :=
    (App.settings (h (h a))).1 in
  after App.handleToggleEchoCancellation
  = setEchoCancellation (negb (echoCancellation s)) s
  ∧ after App.handleToggleNoiseSuppression
    = setNoiseSuppression (negb (noiseSuppression s)) s
  ∧ after App.handleTogglePartialMatch
    = setPartialMatchHighlight (negb (partialMatchHighlight s)) s
  ∧ after App.handleToggleNewestFirst
    = setNewestFirst (negb (newestFirst s)) s
  ∧ stored App.handleToggleEchoCancellation
    = <["echo_cancellation" := boolToString (negb (echoCancellation s))]> ls
  ∧ stored App.handleToggleNoiseSuppression
    = <["noise_suppression" := boolToString (negb (noiseSuppression s))]> ls
  ∧ stored App.handleTogglePartialMatch
    = <["partial_match_highlight"
        := boolToString (negb (partialMatchHighlight s))]> ls
  ∧ stored App.handleToggleNewestFirst
    = <["newest_first" := boolToString (negb (newestFirst s))]> ls
  ∧ stored App.handleToggleEchoCancellation !! "echo_cancellation"
    = Some (boolToString (negb (echoCancellation s)))
  ∧ stored App.handleToggleNoiseSuppression !! "noise_suppression"
    = Some (boolToString (negb (noiseSuppression s)))
  ∧ stored App.handleTogglePartialMatch !! "partial_match_highlight"
    = Some (boolToString (negb (partialMatchHighlight s)))
  ∧ stored App.handleToggleNewestFirst !! "newest_first"
    = Some (boolToString (negb (newestFirst s)))
  ∧ twice App.handleToggleEchoCancellation = s
  ∧ twice App.handleToggleNoiseSuppression = s
  ∧ twice App.handleTogglePartialMatch = s
  ∧ twice App.handleToggleNewestFirst = s.
Proof.
  destruct a as [p [s ls] n ss sm k]. simpl.
  split_and!; try done; try apply lookup_insert_eq;
    destruct s as [l ak ec ns mic rules pm nf]; simpl;
    by rewrite negb_involutive.
Qed.




Section ExportPDFPage.

Variable toLowerCase : JSString -> JSString.

(** [handleExportPDF] opens no window when there are no confirmed
    transcripts.  With transcripts and a blocked popup nothing is
    written and the notification is the error about popups; with a
    window the document is written and the notification is the success
    message.  The transcripts go to [exportAsPDF] in the same order as
    to the CSV export. *)
Theorem export_pdf_outcomes (printWindow : option unit)
    (currentDate : JSString) (now : LocalTime) (a : App.AppState) :
  let ts := transcriptsWithTimestamps (App.page a) in
  let out := App.handleExportPDF toLowerCase printWindow currentDate now a in
  (ts = [] → out.2 = None)
  ∧ (ts ≠ [] → printWindow = None →
     out.2 = Some []
     ∧ App.notification out.1
       = Some (App.mkNotification (js "Please allow popups to export PDF")
                 App.error))
  ∧ (ts ≠ [] → printWindow ≠ None →
     App.notification out.1
     = Some (App.mkNotification (T.transcriptsExported (App.t a))
               App.success)
     ∧ out.2
       = Some (exportAsPDF toLowerCase printWindow (App.orderedTranscripts a)
                 (T.title (App.t a)) (T.confirmedTranscripts (App.t a))
                 (T.pdfDate (App.t a)) (T.pdfTotalTranscripts (App.t a))
                 (highlightRules (App.settings a).1)
                 (partialMatchHighlight (App.settings a).1)
                 currentDate now).2).
Proof.
  simpl. unfold App.handleExportPDF.
  destruct (transcriptsWithTimestamps (App.page a)) as [|e ts] eqn:Hts;
    [by split_and!|].
  destruct printWindow as [w|]; simpl; by split_and!.
Qed.

End ExportPDFPage.

Lemma export_pdf_outcomes_witness :
  (App.handleExportPDF asciiLower None (js "30 November 2025")
     (mkLocalTime 2025 10 30 14 30 45) (App.initialApp ∅)).2 = None.
Proof.
  refine (proj1 (export_pdf_outcomes asciiLower None (js "30 November 2025")
                   (mkLocalTime 2025 10 30 14 30 45) (App.initialApp ∅)) _).
  reflexivity.
Defined.

(** The wording of [handleClearTranscripts] does not follow the language
    of the interface.  The test compares the translated word for
    [language] with [en], which it equals in neither table, so the
    question and the notification are the Finnish ones for English and
    for Finnish alike. *)
Theorem clear_wording_is_finnish (a : App.AppState) :
  App.clearPrompt a
  = js "Haluatko varmasti tyhjent" ++ [0xE4; 0xE4]
    ++ js " kaikki transkriptiot? T" ++ [0xE4] ++ js "t" ++ [0xE4]
    ++ js " ei voi perua."
  ∧ App.notification (App.handleClearTranscripts true a)
    = Some (App.mkNotification (js "Kaikki transkriptiot tyhjennetty")
              App.info)
  ∧ transcriptsWithTimestamps (App.page (App.handleClearTranscripts true a))
    = [].
Proof.
  unfold App.clearPrompt, App.handleClearTranscripts, App.t.
  by destruct (language (App.settings a).1).
Qed.

(** ** Highlighting is local to a token *)

Lemma greedy_all (p : N → bool) (s : JSString) :
  forallb p s = true → greedy p s = (s, []).
Proof.
  induction s as [|c s IH]; [done|]. simpl.
  intros [-> Hs]%andb_true_iff. by rewrite IH.
Qed.

Lemma matchFrom_nil (n : nat) : matchFrom n [] = [].
Proof. by destruct n. Qed.

Lemma matchTokens_run (token : JSString) :
  IsRun token → matchTokens token = [token].
Proof.
  intros [Hne [ws Hws]]. destruct token as [|c run]; [done|].
  inversion_clear Hws as [|? ? Hc Hrun].
  unfold matchTokens. cbn [length matchFrom].
  assert (∀ q : N → bool, (∀ d, isWhiteSpace d = ws → q d = true) →
            greedy q run = (run, [])) as Hg.
  { intros q Hq. apply greedy_all, forallb_Forall_true.
    eapply Forall_impl; [exact Hrun|]. done. }
  destruct ws; rewrite Hc; simpl.
  - rewrite Hg by done. by rewrite matchFrom_nil.
  - rewrite Hg by (by intros d ->). by rewrite matchFrom_nil.
Qed.

Section PerToken.

Variable toLowerCase : JSString -> JSString.

(** A token of a text is a single token of its own, and highlighting is
    done token by token: the HTML string of a text is the concatenation
    of the HTML strings of its tokens taken one at a time. *)
Theorem highlighting_is_per_token (text : JSString)
    (rules : list HighlightRule) (pm : bool) :
  Forall (λ token, matchTokens token = [token]) (matchTokens text)
  ∧ applyHighlightsToHTML toLowerCase text rules pm
    = concat ((λ token, applyHighlightsToHTML toLowerCase token rules pm)
                <$> matchTokens text).
Proof.
  assert (Forall (λ token, matchTokens token = [token]) (matchTokens text))
    as Hruns.
  { eapply Forall_impl; [apply matchFrom_runs|]. apply matchTokens_run. }
  split; [done|].
  rewrite applyHighlightsToHTML_tokens. f_equal.
  apply Forall_fmap_ext_1. eapply Forall_impl; [exact Hruns|].
  intros token Ht. rewrite applyHighlightsToHTML_tokens, Ht. simpl.
  by rewrite app_nil_r.
Qed.

End PerToken.

(** ** Concrete runs of the further properties *)

Lemma applyHighlights_shows_text_witness :
  length (applyHighlights asciiLower (js "a run")
            [mkRule (js "1") (js "run") yellow] true (js "tip"))
  = length (matchTokens (js "a run")).
Proof.
  refine (proj2 (proj2 (applyHighlights_shows_text asciiLower (js "a run")
           [mkRule (js "1") (js "run") yellow] true (js "tip"))) _ _);
    discriminate.
Defined.

Lemma appended_rules_keep_highlights_witness :
  htmlOfToken asciiLower
    ([mkRule (js "1") (js "run") yellow]
     ++ [mkRule (js "2") (js "running") green]) true (js "running")
  = htmlOfToken asciiLower [mkRule (js "1") (js "run") yellow] true
      (js "running").
Proof.
  refine (proj1 (proj2 (appended_rules_keep_highlights asciiLower
           (js "a running") [mkRule (js "1") (js "run") yellow]
           [mkRule (js "2") (js "running") green] true (js "tip")
           2 (js "running") 0 _ _ _))).
  - reflexivity.
  - reflexivity.
  - exists (mkRule (js "1") (js "run") yellow). vm_compute. reflexivity.
Defined.

Lemma unmatched_text_unchanged_witness :
  applyHighlightsToHTML asciiLower (js "  ") [mkRule (js "1") [] yellow] true
  = js "  ".
Proof.
  refine (proj1 (unmatched_text_unchanged asciiLower (js "  ")
           [mkRule (js "1") [] yellow] true (js "tip") _)).
  repeat constructor.
Defined.

Lemma escapeRegex_faithful_witness :
  js "a.b" = js "a.b".
Proof.
  refine (proj2 (proj2 (proj2 (proj2 escapeRegex_faithful)))
            (js "a.b") (js "a.b") _).
  reflexivity.
Defined.

Lemma removeHighlightRule_spec_witness :
  highlightRules
    (removeHighlightRule (js "9")
       (setHighlightRules [mkRule (js "1") (js "walk") green]
          initialSettings, ∅)).1
  = [mkRule (js "1") (js "walk") green].
Proof.
  refine (proj1 (proj2 (proj2 (removeHighlightRule_spec (js "9")
           (setHighlightRules [mkRule (js "1") (js "walk") green]
              initialSettings, ∅)))) _).
  repeat constructor. discriminate.
Defined.

Example clear_wording_ex :
  App.notification
    (App.handleClearTranscripts true
       (App.initialApp (<["language" := js "en"]> ∅)))
  = Some (App.mkNotification (js "Kaikki transkriptiot tyhjennetty") App.info).
Proof. by vm_compute. Qed.

Example shadowed_rule_ex :
  applyHighlightsToHTML asciiLower (js "running")
    [mkRule (js "1") (js "run") yellow; mkRule (js "2") (js "running") green]
    true
  = spanOpenHTML yellow black ++ js "running" ++ partialIndicatorHTML
    ++ spanCloseHTML.
Proof. by vm_compute. Qed.

(** ** The name stamp of the PDF *)

Lemma padStart2_twoDigits (n : nat) :
  (n < 100)%nat → padStart2 (numberToString n) = twoDigits n.
Proof.
  intros Hn. do 100 (destruct n as [|n]; [reflexivity|]). lia.
Qed.

(** The title of the printed document is [comLedger_] followed by the
    year, the month counted from one, the day, the hour, the minute and
    the second, each but the year written with exactly two digits, for
    every clock reading with a month index below twelve and the other
    fields below one hundred. *)
Theorem pdf_title_stamp (toLowerCase : JSString → JSString)
    (transcripts : list TranscriptItem)
    (title confirmedTitle dateLabel totalLabel : JSString)
    (rules : list HighlightRule) (pm : bool) (currentDate : JSString)
    (now : LocalTime) :
  (getMonth now < 12)%nat → (getDate now < 100)%nat →
  (getHours now < 100)%nat → (getMinutes now < 100)%nat →
  (getSeconds now < 100)%nat →
  ∃ rest,
    (exportAsPDF toLowerCase (Some ()) transcripts title confirmedTitle
       dateLabel totalLabel rules pm currentDate now).2
    = [DocumentWrite
         (pdfPart0 ++ js "comLedger_" ++ numberToString (getFullYear now)
          ++ js "-" ++ twoDigits (getMonth now + 1)
          ++ js "-" ++ twoDigits (getDate now)
          ++ js "_" ++ twoDigits (getHours now)
          ++ js "-" ++ twoDigits (getMinutes now)
          ++ js "-" ++ twoDigits (getSeconds now)
          ++ pdfPart1 ++ rest);
       DocumentClose; SetOnload].
Proof.
  intros Hmonth Hday Hh Hm Hs. eexists.
  cbn [exportAsPDF snd]. do 2 f_equal.
  rewrite !padStart2_twoDigits by lia.
  rewrite <- !app_assoc. do 2 f_equal.
Qed.

Lemma pdf_title_stamp_witness :
  ∃ rest,
    (exportAsPDF asciiLower (Some ()) [] (js "comLedger")
       (js "Confirmed Transcripts") (js "Date") (js "Total Transcripts")
       [] true (js "30 November 2025") (mkLocalTime 2025 0 5 9 3 7)).2
    = [DocumentWrite
         (pdfPart0 ++ js "comLedger_" ++ numberToString 2025
          ++ js "-" ++ twoDigits 1 ++ js "-" ++ twoDigits 5
          ++ js "_" ++ twoDigits 9 ++ js "-" ++ twoDigits 3
          ++ js "-" ++ twoDigits 7 ++ pdfPart1 ++ rest);
       DocumentClose; SetOnload].
Proof.
  apply (pdf_title_stamp asciiLower [] (js "comLedger")
           (js "Confirmed Transcripts") (js "Date") (js "Total Transcripts")
           [] true (js "30 November 2025") (mkLocalTime 2025 0 5 9 3 7));
    simpl; lia.
Defined.

(** ** The warning before the page is left *)

Lemma appendUnlessSaved_nonempty (entry : Transcript)
    (prev : list Transcript) :
  appendUnlessSaved entry prev ≠ [].
Proof.
  unfold appendUnlessSaved. destruct prev as [|e prev]; simpl; [done|].
  by destruct (_ || _).
Qed.

(** The page asks before it is left exactly when there are confirmed
    transcripts: always after a committed transcript, whether it was
    new or not, and never after a confirmed clear. *)
Theorem unload_warning (toLowerCase : JSString → JSString)
    (a : App.AppState) (t i ts : JSString) :
  (App.warnsBeforeUnload a = true
   ↔ transcriptsWithTimestamps (App.page a) ≠ [])
  ∧ App.warnsBeforeUnload
      (App.step toLowerCase a (App.Scribe (CommittedTranscript t i ts)))
    = true
  ∧ App.warnsBeforeUnload (App.step toLowerCase a (App.ClearAll true))
    = false.
Proof.
  unfold App.warnsBeforeUnload. split_and!.
  - by destruct (transcriptsWithTimestamps (App.page a)).
  - simpl.
    pose proof (appendUnlessSaved_nonempty (mkTranscript i t ts)
                  (transcriptsWithTimestamps (App.page a))) as Hne.
    by destruct (appendUnlessSaved _ _).
  - done.
Qed.
